(** * A shallow embedding of src/lib/cors-anywhere.ts

    The request handler [getHandler], the CORS header injector [withCORS],
    the URL normalizer [parseURL], the redirect follower [onProxyResponse],
    the outbound request builder [proxyRequest] and the engine error handler
    registered in [createServer] are translated into Rocq functions.

    Conventions of the model.
    - A JavaScript object used as a header map is an insertion-ordered
      association list ([obj]): assignment replaces the first entry with the
      same key or appends one, [delete] removes the key, [Object.keys] lists
      the keys in order.  Keys are compared case-sensitively, as in JS.
    - Node's [IncomingMessage.headers] lower-cases every header name
      ([node_headers]).  Node's [ServerResponse] keeps its headers in a map
      keyed by the lower-cased name ([store]); [setHeader] is case-insensitive.
    - Functions of Node and of the configuration that are not code of this
      file ([url.resolve], the top-level-domain test behind
      [isValidHostName], reading the help file) are Section variables: the
      theorems hold for every implementation of them.
    - The source declares [locationHeader] and [parsedLocation] with [const]
      and then assigns them; they are modelled as the mutable bindings the
      code evidently means (tsc with an ES5 target emits [var]). *)

From Stdlib Require Import ZArith List Bool Ascii String Lia.
From Stdlib Require Import Numbers.DecimalString.
Import ListNotations.
Open Scope string_scope.
Open Scope Z_scope.

(** ** Characters and strings *)

Definition ascii_code (c : ascii) : N := N_of_ascii c.

Definition lower_ascii (c : ascii) : ascii :=
  let n := ascii_code c in
  if ((65 <=? n)%N && (n <=? 90)%N)%bool then ascii_of_N (n + 32) else c.

Fixpoint lower (s : string) : string :=
  match s with
  | EmptyString => EmptyString
  | String c s' => String (lower_ascii c) (lower s')
  end.

Definition is_digit (c : ascii) : bool :=
  let n := ascii_code c in ((48 <=? n)%N && (n <=? 57)%N)%bool.

(** JavaScript [String.prototype.trim] on ASCII input. *)
Definition is_ws (c : ascii) : bool :=
  let n := ascii_code c in
  ((n =? 32)%N || ((9 <=? n)%N && (n <=? 13)%N))%bool.

Fixpoint ltrim (s : string) : string :=
  match s with
  | EmptyString => EmptyString
  | String c s' => if is_ws c then ltrim s' else s
  end.

Fixpoint rtrim (s : string) : string :=
  match s with
  | EmptyString => EmptyString
  | String c s' =>
      let t := rtrim s' in
      match t with
      | EmptyString => if is_ws c then EmptyString else String c EmptyString
      | _ => String c t
      end
  end.

Definition trim (s : string) : string := rtrim (ltrim s).

(** [break_at p s] splits [s] before its first character satisfying [p]. *)
Fixpoint break_at (p : ascii -> bool) (s : string) : string * string :=
  match s with
  | EmptyString => (EmptyString, EmptyString)
  | String c s' =>
      if p c then (EmptyString, s)
      else let '(a, b) := break_at p s' in (String c a, b)
  end.

(** [s.lastIndexOf(p, 0) === 0], i.e. [s] starts with [p]. *)
Definition starts_with (p s : string) : bool := String.prefix p s.

Fixpoint drop (n : nat) (s : string) : string :=
  match n, s with
  | O, _ => s
  | S n', String _ s' => drop n' s'
  | S _, EmptyString => EmptyString
  end.

(** Case-insensitive prefix test against a lower-case pattern: returns the
    matched text as written in [s] and the remainder. *)
Fixpoint split_ci (p s : string) : option (string * string) :=
  match p, s with
  | EmptyString, _ => Some (EmptyString, s)
  | String a p', String c s' =>
      if Ascii.eqb (lower_ascii c) a then
        match split_ci p' s' with
        | Some (m, r) => Some (String c m, r)
        | None => None
        end
      else None
  | String _ _, EmptyString => None
  end.

Fixpoint join (sep : string) (l : list string) : string :=
  match l with
  | [] => EmptyString
  | [x] => x
  | x :: l' => x ++ sep ++ join sep l'
  end.

(** [Number.prototype.toString] on integers. *)
Definition Z_to_string (z : Z) : string := NilEmpty.string_of_int (Z.to_int z).

(** [Number(s)] on a string of ASCII digits. *)
Fixpoint digits_value_rev (s : list ascii) : Z :=
  match s with
  | [] => 0
  | c :: s' => (Z.of_N (ascii_code c) - 48) + 10 * digits_value_rev s'
  end.

Definition digits_value (s : string) : Z :=
  digits_value_rev (rev (list_ascii_of_string s)).

(** ** JavaScript objects as insertion-ordered association lists *)

Definition obj (A : Type) := list (string * A).

Fixpoint obj_get {A} (k : string) (o : obj A) : option A :=
  match o with
  | [] => None
  | (k', v) :: o' => if String.eqb k' k then Some v else obj_get k o'
  end.

(** [o[k] = v]: an existing key keeps its position. *)
Fixpoint obj_set {A} (k : string) (v : A) (o : obj A) : obj A :=
  match o with
  | [] => [(k, v)]
  | (k', v') :: o' =>
      if String.eqb k' k then (k', v) :: o' else (k', v') :: obj_set k v o'
  end.

(** [delete o[k]]. *)
Definition obj_del {A} (k : string) (o : obj A) : obj A :=
  filter (fun kv => negb (String.eqb (fst kv) k)) o.

(** [Object.keys(o)]. *)
Definition obj_keys {A} (o : obj A) : list string := map fst o.

Definition headers := obj string.

(** Truthiness of an optional string value read from a JS object. *)
Definition truthy (v : option string) : bool :=
  match v with
  | Some s => negb (String.eqb s EmptyString)
  | None => false
  end.

(** The header names for which Node's [IncomingMessage] keeps the first
    value and drops later duplicates ([matchKnownFields]). *)
Definition drops_duplicates (k : string) : bool :=
  existsb (String.eqb k)
    ["age"; "authorization"; "content-length"; "content-type"; "etag"; "expires"; "from";
     "host"; "if-modified-since"; "if-unmodified-since"; "last-modified"; "location";
     "max-forwards"; "proxy-authorization"; "referer"; "retry-after"; "server"; "user-agent"].

(** Node's [IncomingMessage.headers] ([_addHeaderLine]), built from the
    header lines as the HTTP parser delivers them (values already stripped
    of surrounding whitespace): names lower-cased; a repeated header keeps
    its first value for the names of [drops_duplicates], is joined with
    "; " for [cookie] and with ", " otherwise.  [set-cookie] is an array in
    Node; it is represented here by its values joined with ", ". *)
Fixpoint node_headers_acc (acc : headers) (raw : list (string * string)) : headers :=
  match raw with
  | [] => acc
  | (n, v) :: raw' =>
      let k := lower n in
      let acc' := match obj_get k acc with
                  | Some old =>
                      if drops_duplicates k then acc
                      else obj_set k (old ++ (if String.eqb k "cookie" then "; " else ", ") ++ v) acc
                  | None => obj_set k v acc
                  end in
      node_headers_acc acc' raw'
  end.

Definition node_headers (raw : list (string * string)) : headers :=
  node_headers_acc [] raw.

(** Node's [ServerResponse] header map: keyed by the lower-cased name, it
    keeps the name as last given and the value. *)
Definition store := obj (string * string).

(** [res.setHeader(name, value)] *)
Definition set_header (n v : string) (s : store) : store := obj_set (lower n) (n, v) s.

(** [res.getHeader(name)] *)
Definition get_header (n : string) (s : store) : option string :=
  option_map snd (obj_get (lower n) s).

(** One [setHeader(k, g(k))] of a copy loop over keys. *)
Definition write_step (g : string -> option string) (s : store) (k : string) : store :=
  match g k with Some v => set_header k v s | None => s end.

(** [res.writeHead(status, obj)] merges [obj] into the header map. *)
Definition write_headers (h : headers) (s : store) : store :=
  fold_left (write_step (fun k => obj_get k h)) (obj_keys h) s.

(** ** The pattern of [parseURL]

    [/^(?:(https?:)?\/\/)?(([^\/?]+?)(?::(\d{0,5})(?=[\/?]|$))?)([\/?][\S\s]*|$)/i]
    run with JavaScript's backtracking order: the optional prefix group is
    tried first (with the scheme, [s?] greedy, then without), the hostname
    [[^\/?]+?] is lazy, the port group is greedy with [\d{0,5}] backtracking
    from its longest run. *)

Record RMatch := {
  m_protocol : option string;   (** group 1 *)
  m_host : string;              (** group 2 *)
  m_hostname : string;          (** group 3 *)
  m_port : option string;       (** group 4 *)
  m_path : string               (** group 5 *)
}.

Definition is_sep (c : ascii) : bool :=
  (Ascii.eqb c "/" || Ascii.eqb c "?")%bool.

(** [(?=[\/?]|$)] *)
Definition lookahead_sep (s : string) : bool :=
  match s with
  | EmptyString => true
  | String c _ => is_sep c
  end.

(** group 5: [([\/?][\S\s]*|$)] *)
Definition group5 (s : string) : option string :=
  match s with
  | EmptyString => Some EmptyString
  | String c _ => if is_sep c then Some s else None
  end.

(** [\d{0,5}] greedy: the longest run of at most [n] digits. *)
Fixpoint take_digits (n : nat) (s : string) : string * string :=
  match n, s with
  | S n', String c s' =>
      if is_digit c then let '(d, r) := take_digits n' s' in (String c d, r)
      else (EmptyString, s)
  | _, _ => (EmptyString, s)
  end.

(** The splits of a digit run, longest first (the backtracking order). *)
Fixpoint splits_desc (d : string) : list (string * string) :=
  match d with
  | EmptyString => [(EmptyString, EmptyString)]
  | String c d' =>
      map (fun '(a, b) => (String c a, b)) (splits_desc d') ++ [(EmptyString, d)]
  end.

Fixpoint first_some {A B} (f : A -> option B) (l : list A) : option B :=
  match l with
  | [] => None
  | x :: l' => match f x with Some y => Some y | None => first_some f l' end
  end.

(** [(?::(\d{0,5})(?=[\/?]|$))] followed by group 5. *)
Definition port_then_path (s : string) : option (string * string) :=
  match s with
  | String ":" s' =>
      let '(d, r) := take_digits 5 s' in
      first_some (fun '(p, back) =>
                    let r' := back ++ r in
                    if lookahead_sep r' then
                      option_map (fun g => (p, g)) (group5 r')
                    else None) (splits_desc d)
  | _ => None
  end.

(** The lazy hostname loop: [acc] is the hostname matched so far. *)
Fixpoint host_loop (acc s : string) : option (string * option string * string) :=
  match port_then_path s with
  | Some (p, g) => Some (acc, Some p, g)
  | None =>
      match group5 s with
      | Some g => Some (acc, None, g)
      | None =>
          match s with
          | String c s' => if is_sep c then None else host_loop (acc ++ String c EmptyString) s'
          | EmptyString => None
          end
      end
  end.

(** Group 2 and what follows it. *)
Definition match_body (s : string) : option (string * option string * string) :=
  match s with
  | String c s' => if is_sep c then None else host_loop (String c EmptyString) s'
  | EmptyString => None
  end.

(** The prefix [(?:(https?:)?\/\/)?] in backtracking order. *)
Definition prefix_candidates (s : string) : list (option string * string) :=
  let with_scheme :=
    flat_map (fun '(sch, r) =>
                if starts_with "//" r then [(Some sch, drop 2 r)] else [])
             ((match split_ci "https:" s with Some p => [p] | None => [] end) ++
              (match split_ci "http:" s with Some p => [p] | None => [] end)) in
  with_scheme ++
  (if starts_with "//" s then [(None, drop 2 s)] else []) ++
  [(None, s)].

Definition url_regex (s : string) : option RMatch :=
  first_some (fun '(sch, r) =>
                match match_body r with
                | Some (hn, port, path) =>
                    Some {| m_protocol := sch;
                            m_host := hn ++ match port with
                                           | Some p => ":" ++ p
                                           | None => EmptyString
                                           end;
                            m_hostname := hn; m_port := port; m_path := path |}
                | None => None
                end) (prefix_candidates s).

(** ** Node's legacy [url.parse]

    A model of [url.parse(s)] (no query parsing, no [slashesDenoteHost]) for
    ASCII input, following Node's [Url.prototype.parse]: trimming, the
    backslash rewrite, the protocol, the [//] marker, the host scan with
    [@] and the host-ending and non-host characters, [decodeURIComponent]
    of the auth part, [parseHost] (the [/:[0-9]*$/] port), [getHostname],
    lower-casing, [toASCII] and the forbidden-character checks on the
    hostname, IPv6 brackets, then hash, search and pathname.  The result is
    [None] when [url.parse] throws: a malformed escape in the auth part
    (URIError), a failing [toASCII], or a hostname the checks refuse
    (ERR_INVALID_URL).  Percent-escaping of the path is not modelled;
    [parseURL] always passes a string that starts with a scheme. *)

(** Node's IDNA [toASCII], which [url.parse] applies to a non-empty
    hostname that is not an IPv6 literal; [None] when it throws.  Node's
    releases implement it differently (ICU, then ada), so it is a parameter
    of the model: the theorems hold for every implementation. *)
Class IDNA := to_ascii : string -> option string.

Record Url := {
  protocol : string;
  slashes : bool;
  auth : option string;
  host : string;
  port : option string;
  hostname : string;
  hash : option string;
  search : option string;
  pathname : option string;
  path : option string;
  href : string
}.

Definition backslash : ascii := "092".

Fixpoint fix_backslashes (s : string) : string :=
  match s with
  | EmptyString => EmptyString
  | String c s' =>
      if (Ascii.eqb c "?" || Ascii.eqb c "#")%bool then s
      else String (if Ascii.eqb c backslash then "/"%char else c) (fix_backslashes s')
  end.

Definition is_alnum (c : ascii) : bool :=
  let n := ascii_code (lower_ascii c) in
  (is_digit c || ((97 <=? n)%N && (n <=? 122)%N))%bool.

(** [/^[a-z0-9.+-]+:/i] *)
Definition is_proto_char (c : ascii) : bool :=
  (is_alnum c || Ascii.eqb c "." || Ascii.eqb c "+" || Ascii.eqb c "-")%bool.

Definition split_protocol (s : string) : option (string * string) :=
  let '(a, b) := break_at (fun c => negb (is_proto_char c)) s in
  match a, b with
  | String _ _, String ":" b' => Some (a ++ ":", b')
  | _, _ => None
  end.

Definition slashed_protocol (p : string) : bool :=
  existsb (String.eqb p) ["http"; "http:"; "https"; "https:"; "ftp"; "ftp:";
                          "gopher"; "gopher:"; "file"; "file:"].

Definition hostless_protocol (p : string) : bool :=
  existsb (String.eqb p) ["javascript"; "javascript:"].

Definition is_host_ending (c : ascii) : bool :=
  (Ascii.eqb c "#" || Ascii.eqb c "/" || Ascii.eqb c "?")%bool.

Definition is_non_host (c : ascii) : bool :=
  existsb (Ascii.eqb c)
    ["009"; "010"; "013"; " "; "034"; "%"; "'"; ";"; "<"; ">"; backslash;
     "^"; "`"; "{"; "|"; "}"]%char.

(** The scan for [hostEnd], [atSign] and [nonHost]; [i] is the index. *)
Fixpoint host_scan (s : string) (i : nat) (at_sign non_host : option nat)
  : option nat * option nat :=
  match s with
  | EmptyString => (at_sign, non_host)
  | String c s' =>
      if is_host_ending c then
        (at_sign, match non_host with None => Some i | Some _ => non_host end)
      else if is_non_host c then
        host_scan s' (S i) at_sign
                  (match non_host with None => Some i | Some _ => non_host end)
      else if Ascii.eqb c "@" then host_scan s' (S i) (Some i) None
      else host_scan s' (S i) at_sign non_host
  end.

Fixpoint span_digits (l : list ascii) : list ascii * list ascii :=
  match l with
  | c :: l' => if is_digit c then let '(a, b) := span_digits l' in (c :: a, b) else ([], l)
  | [] => ([], [])
  end.

(** [parseHost]: the port [/:[0-9]*$/] and the remaining host. *)
Definition parse_host (h : string) : option string * string :=
  let '(ds, before) := span_digits (rev (list_ascii_of_string h)) in
  match before with
  | ":"%char :: before' =>
      (match ds with [] => None | _ => Some (string_of_list_ascii (rev ds)) end,
       string_of_list_ascii (rev before'))
  | _ => (None, h)
  end.

Definition is_ipv6_hostname (h : string) : bool :=
  match list_ascii_of_string h with
  | "["%char :: l => match rev l with "]"%char :: _ => true | _ => false end
  | _ => false
  end.

Definition is_bad_hostname_char (c : ascii) : bool :=
  (Ascii.eqb c "/" || Ascii.eqb c backslash || Ascii.eqb c "#" ||
   Ascii.eqb c "?" || Ascii.eqb c ":")%bool.

Definition strip_brackets (h : string) : string :=
  substring 1 (String.length h - 2) h.

(** ** [decodeURIComponent] and the auth escaping of [url.format]

    Strings are byte strings, a non-ASCII character being its UTF-8 bytes. *)

Definition hex_digit (c : ascii) : option N :=
  let n := ascii_code c in
  if ((48 <=? n)%N && (n <=? 57)%N)%bool then Some (n - 48)%N
  else if ((65 <=? n)%N && (n <=? 70)%N)%bool then Some (n - 55)%N
  else if ((97 <=? n)%N && (n <=? 102)%N)%bool then Some (n - 87)%N
  else None.

(** An escape [%XX] at the head of the input. *)
Definition pct_byte (s : string) : option (N * string) :=
  match s with
  | String "%" (String h (String l s')) =>
      match hex_digit h, hex_digit l with
      | Some a, Some b => Some ((a * 16 + b)%N, s')
      | _, _ => None
      end
  | _ => None
  end.

(** [n] further escapes, each a continuation byte [10xxxxxx]. *)
Fixpoint pct_continuations (n : nat) (s : string) : option (list N * string) :=
  match n with
  | O => Some ([], s)
  | S n' =>
      match pct_byte s with
      | Some (b, s') =>
          if ((128 <=? b)%N && (b <? 192)%N)%bool then
            match pct_continuations n' s' with
            | Some (bs, s'') => Some (b :: bs, s'')
            | None => None
            end
          else None
      | None => None
      end
  end.

(** The length of the UTF-8 sequence a leading byte of 128 or more starts;
    [None] for a continuation byte or a byte above [11110111]. *)
Definition utf8_length (b : N) : option nat :=
  if ((192 <=? b)%N && (b <? 224)%N)%bool then Some 2%nat
  else if ((224 <=? b)%N && (b <? 240)%N)%bool then Some 3%nat
  else if ((240 <=? b)%N && (b <? 248)%N)%bool then Some 4%nat
  else None.

(** The octets encode a code point: no overlong form, no surrogate, at
    most [U+10FFFF]. *)
Definition utf8_valid (n : nat) (b : N) (cs : list N) : bool :=
  let lead := match n with 2%nat => (b mod 32)%N | 3%nat => (b mod 16)%N | _ => (b mod 8)%N end in
  let cp := fold_left (fun acc c => (acc * 64 + c mod 64)%N) cs lead in
  match n with
  | 2%nat => (128 <=? cp)%N
  | 3%nat => ((2048 <=? cp)%N && negb ((55296 <=? cp)%N && (cp <=? 57343)%N))%bool
  | _ => ((65536 <=? cp)%N && (cp <=? 1114111)%N)%bool
  end.

Fixpoint uri_decode (fuel : nat) (s : string) : option string :=
  match fuel with
  | O => Some s
  | S fuel' =>
      match s with
      | EmptyString => Some EmptyString
      | String "%" _ =>
          match pct_byte s with
          | None => None
          | Some (b, s') =>
              if (b <? 128)%N then option_map (String (ascii_of_N b)) (uri_decode fuel' s')
              else match utf8_length b with
                   | None => None
                   | Some n =>
                       match pct_continuations (pred n) s' with
                       | Some (cs, s'') =>
                           if utf8_valid n b cs
                           then option_map (append (string_of_list_ascii (map ascii_of_N (b :: cs))))
                                           (uri_decode fuel' s'')
                           else None
                       | None => None
                       end
                   end
          end
      | String c s' => option_map (String c) (uri_decode fuel' s')
      end
  end.

(** [decodeURIComponent(s)]; [None] when it throws a URIError. *)
Definition decode_uri_component (s : string) : option string :=
  uri_decode (String.length s) s.

(** The characters [noEscapeAuth] leaves alone: letters, digits and
    [! ' ( ) * - . : _ ~]. *)
Definition no_escape_auth (c : ascii) : bool :=
  (is_alnum c || existsb (Ascii.eqb c) ["!"; "'"; "("; ")"; "*"; "-"; "."; ":"; "_"; "~"]%char)%bool.

Definition hex_upper (n : N) : ascii :=
  ascii_of_N (if (n <? 10)%N then (48 + n)%N else (55 + n)%N).

(** [encodeStr(auth, noEscapeAuth, hexTable)] *)
Fixpoint encode_auth (s : string) : string :=
  match s with
  | EmptyString => EmptyString
  | String c s' =>
      if no_escape_auth c then String c (encode_auth s')
      else String "%" (String (hex_upper (ascii_code c / 16))
                              (String (hex_upper (ascii_code c mod 16)) (encode_auth s')))
  end.

(** [forbiddenHostChars] and [forbiddenHostCharsIpv6] *)
Definition forbidden_host_char (c : ascii) : bool :=
  existsb (Ascii.eqb c)
    ["000"; "009"; "010"; "013"; " "; "#"; "%"; "/"; ":"; "<"; ">"; "?"; "@"; "[";
     backslash; "]"; "^"; "|"]%char.

Definition forbidden_host_char_ipv6 (c : ascii) : bool :=
  existsb (Ascii.eqb c)
    ["000"; "009"; "010"; "013"; " "; "#"; "%"; "/"; "<"; ">"; "?"; "@";
     backslash; "^"; "|"]%char.

Definition has_char (p : ascii -> bool) (s : string) : bool :=
  existsb p (list_ascii_of_string s).

Definition url_format (proto : string) (sl : bool) (au : option string)
  (h : string) (pn se ha : option string) : string :=
  let pn := match pn with Some p => p | None => EmptyString end in
  let pre := if (sl || slashed_protocol proto)%bool then "//" else EmptyString in
  let au := match au with Some a => if String.eqb a EmptyString then EmptyString
                                    else encode_auth a ++ "@"
                     | None => EmptyString end in
  let pn := match pn with
            | String c _ => if Ascii.eqb c "/" then pn else "/" ++ pn
            | EmptyString => pn
            end in
  proto ++ pre ++ au ++ h ++ pn ++
  match se with Some x => x | None => EmptyString end ++
  match ha with Some x => x | None => EmptyString end.

(** The part after the host: hash, search, pathname, path and href. *)
Definition url_finish (proto : string) (sl : bool) (au : option string)
  (h prt : option string) (hn : string) (rest : string) : Url :=
  let '(before_hash, hs) := break_at (fun c => Ascii.eqb c "#") rest in
  let ha := match hs with EmptyString => None | _ => Some hs end in
  let '(before_q, qs) := break_at (fun c => Ascii.eqb c "?") before_hash in
  let se := match qs with EmptyString => None | _ => Some qs end in
  let pn := match before_q with EmptyString => None | _ => Some before_q end in
  let pn := match pn with
            | None => if (slashed_protocol (lower proto) &&
                          negb (String.eqb hn EmptyString))%bool
                      then Some "/" else None
            | Some _ => pn
            end in
  let pa := match pn, se with
            | None, None => None
            | _, _ => Some ((match pn with Some p => p | None => EmptyString end) ++
                            (match se with Some s => s | None => EmptyString end))
            end in
  let hst := match h with Some x => x | None => EmptyString end in
  {| protocol := proto; slashes := sl; auth := au; host := hst; port := prt;
     hostname := hn; hash := ha; search := se; pathname := pn; path := pa;
     href := url_format proto sl au hst pn se ha |}.

Definition url_parse `{IDNA} (s : string) : option Url :=
  let s := fix_backslashes (trim s) in
  match split_protocol s with
  | None => Some (url_finish EmptyString false None None None EmptyString s)
  | Some (proto0, rest) =>
      let proto := lower proto0 in
      let sl := (starts_with "//" rest && negb (hostless_protocol proto))%bool in
      let rest := if sl then drop 2 rest else rest in
      if (negb (hostless_protocol proto) &&
          (sl || negb (slashed_protocol proto)))%bool then
        let '(at_sign, non_host) := host_scan rest 0 None None in
        let start := match at_sign with Some a => S a | None => O end in
        match match at_sign with
              | Some a => option_map Some (decode_uri_component (substring 0 a rest))
              | None => Some None
              end with
        | None => None
        | Some au =>
        let '(h, rest) :=
          match non_host with
          | None => (drop start rest, EmptyString)
          | Some n => (substring start (n - start) rest, drop n rest)
          end in
        let '(prt, hn) := parse_host h in
        let ipv6 := is_ipv6_hostname hn in
        let '(hn, rest) :=
          if ipv6 then (hn, rest)
          else let '(good, bad) := break_at is_bad_hostname_char hn in
               match bad with
               | EmptyString => (hn, rest)
               | _ => (good, "/" ++ bad ++ rest)
               end in
        let hn := if (255 <? String.length hn)%nat then EmptyString else lower hn in
        match (if String.eqb hn EmptyString then Some hn
               else if ipv6 then
                 if has_char forbidden_host_char_ipv6 hn then None else Some hn
               else match to_ascii hn with
                    | Some hn' =>
                        if (String.eqb hn' EmptyString || has_char forbidden_host_char hn')%bool
                        then None else Some hn'
                    | None => None
                    end) with
        | None => None
        | Some hn =>
        let hst := hn ++ match prt with Some p => ":" ++ p | None => EmptyString end in
        let '(hn, rest) :=
          if ipv6 then (strip_brackets hn,
                        if starts_with "/" rest then rest else "/" ++ rest)
          else (hn, rest) in
        Some (url_finish proto sl au (Some hst) prt hn rest)
        end
        end
      else Some (url_finish proto sl None None None EmptyString rest)
  end.

(** ** [parseURL] *)

(** [/^https?:/i.test(s)] *)
Definition http_scheme_prefix (s : string) : bool :=
  match split_ci "https:" s, split_ci "http:" s with
  | None, None => false
  | _, _ => true
  end.

(** [parseURL(req_url)]: [Some (Some u)] when it returns the URL [u],
    [Some None] when it returns null, [None] when [url.parse] throws. *)
Definition parseURL_result `{IDNA} (req_url : string) : option (option Url) :=
  match url_regex req_url with
  | None => Some None
  | Some m =>
      let req_url' :=
        match m_protocol m with
        | Some _ => Some req_url
        | None =>
            if http_scheme_prefix req_url then None
            else
              let r := if starts_with "//" req_url then req_url else "//" ++ req_url in
              let sch := match m_port m with
                         | Some p => if String.eqb p "443" then "https:" else "http:"
                         | None => "http:"
                         end in
              Some (sch ++ r)
        end in
      match req_url' with
      | None => Some None
      | Some r =>
          match url_parse r with
          | None => None
          | Some parsed =>
              Some (if String.eqb (hostname parsed) EmptyString then None else Some parsed)
          end
      end
  end.

(** The URL [parseURL] returns: [None] when it returns null or throws. *)
Definition parseURL `{IDNA} (req_url : string) : option Url :=
  match parseURL_result req_url with
  | Some l => l
  | None => None
  end.

(** ** Requests, responses and configuration *)

(** An incoming request after Node has parsed it. *)
Record Request := {
  method : string;
  url : string;
  req_headers : headers;
  encrypted : bool        (** [req.connection.encrypted] *)
}.

Definition mk_request (m u : string) (raw : list (string * string)) (enc : bool) : Request :=
  {| method := m; url := u; req_headers := node_headers raw; encrypted := enc |}.

Definition with_req_headers (req : Request) (h : headers) : Request :=
  {| method := method req; url := url req; req_headers := h; encrypted := encrypted req |}.

(** A response as written to the client. *)
Record Response := {
  status : Z;
  status_message : option string;
  res_headers : store;
  body : string
}.

(** The [requireHeader] option as given by the caller. *)
Inductive RequireHeader :=
| RHNull
| RHString (s : string)
| RHArray (l : list string).

Record Config := {
  handle_initial_request : option (Request -> option Url -> option Response);
  get_proxy_for_url : string -> string;   (** the empty string when no proxy is used *)
  max_redirects : Z;
  origin_blacklist : list string;
  origin_whitelist : list string;
  check_rate_limit : option (string -> string);
  redirect_same_origin : bool;
  require_header : RequireHeader;
  remove_headers : list string;
  set_headers : headers;
  cors_max_age : Z;
  help_file : string
}.

(** [corsAnywhereRequestState] *)
Record ReqState := {
  rs_get_proxy_for_url : string -> string;
  rs_max_redirects : Z;
  rs_cors_max_age : Z;
  rs_location : Url;
  rs_proxy_base_url : string;
  rs_redirect_count : option Z          (** [redirectCount_], undefined at first *)
}.

(** ** [withCORS] *)

Definition with_cors (cors_max_age : Z) (h : headers) (req : Request) : headers * Request :=
  let h := obj_set "Access-Control-Allow-Origin" "*" h in
  let h := if (String.eqb (method req) "OPTIONS" && negb (cors_max_age =? 0))%bool
           then obj_set "Access-Control-Max-Age" (Z_to_string cors_max_age) h else h in
  let rh := req_headers req in
  let '(h, rh) :=
    match obj_get "Access-Control-Request-Method" rh with
    | Some v => if truthy (Some v)
                then (obj_set "Access-Control-Allow-Methods" v h,
                      obj_del "Access-Control-Request-Method" rh)
                else (h, rh)
    | None => (h, rh)
    end in
  let '(h, rh) :=
    match obj_get "Access-Control-Request-Headers" rh with
    | Some v => if truthy (Some v)
                then (obj_set "Access-Control-Allow-Headers" v h,
                      obj_del "Access-Control-Request-Headers" rh)
                else (h, rh)
    | None => (h, rh)
    end in
  let h := obj_set "Access-Control-Expose-Headers" (join "," (obj_keys h)) h in
  (h, with_req_headers req rh).

(** ** Helpers of [getHandler] *)

(** The double-quote character as a string. *)
Definition dq : string := String "034" EmptyString.

Definition normalize_require_header (r : RequireHeader) : option (list string) :=
  match r with
  | RHNull => None
  | RHString s => if String.eqb s EmptyString then None else Some [lower s]
  | RHArray [] => None
  | RHArray l => Some (map lower l)
  end.

Definition has_required_headers (rq : option (list string)) (hs : headers) : bool :=
  match rq with
  | None => true
  | Some l => existsb (fun n => match obj_get n hs with Some _ => true | None => false end) l
  end.

Definition ends_with (suffix s : string) : bool :=
  let n := String.length s in
  let m := String.length suffix in
  ((m <=? n)%nat && String.eqb (substring (n - m) m s) suffix)%bool.

(** [/^\/https?:\/[^/]/i.test(req.url)] *)
Definition missing_slash (u : string) : bool :=
  match u with
  | String "/" u' =>
      let after := match split_ci "https:" u' with
                   | Some (_, r) => Some r
                   | None => match split_ci "http:" u' with
                             | Some (_, r) => Some r
                             | None => None
                             end
                   end in
      match after with
      | Some (String "/" (String c _)) => negb (Ascii.eqb c "/")
      | _ => false
      end
  | _ => false
  end.

(** [/^\/https?:/.test(req.url)] (case-sensitive) *)
Definition explicit_http_url (u : string) : bool :=
  (starts_with "/http:" u || starts_with "/https:" u)%bool.

(** [location.port > 65535]: a null port compares as 0. *)
Definition port_too_large (p : option string) : bool :=
  match p with
  | Some s => 65535 <? digits_value s
  | None => false
  end.

(** [location.href[origin.length] === '/' && location.href.lastIndexOf(origin, 0) === 0] *)
Definition origin_prefixed (origin h : string) : bool :=
  (match String.get (String.length origin) h with
   | Some c => Ascii.eqb c "/"
   | None => false
   end && starts_with origin h)%bool.

(** [req.connection.encrypted || /^\s*https/.test(req.headers['x-forwarded-proto'])];
    an absent header is tested as the string "undefined". *)
Definition requested_over_https (req : Request) : bool :=
  (encrypted req ||
   match obj_get "x-forwarded-proto" (req_headers req) with
   | Some v => starts_with "https" (ltrim v)
   | None => false
   end)%bool.

Definition proxy_base_url (req : Request) : string :=
  (if requested_over_https req then "https://" else "http://") ++
  match obj_get "host" (req_headers req) with Some h => h | None => "undefined" end.

(** The reply of the self-test probe: [{'Content-Type': 'text/plain'}], body "no". *)
Definition iscorsneeded_reply : Response :=
  {| status := 200; status_message := None;
     res_headers := write_headers [("Content-Type", "text/plain")] [];
     body := "no" |}.

(** The reply of the engine error handler when no header was sent yet: every
    staged header is removed, then [writeHead(404, {'Access-Control-Allow-Origin': '*'})]. *)
Definition engine_error (err : string) : Response :=
  {| status := 404; status_message := None;
     res_headers := write_headers [("Access-Control-Allow-Origin", "*")] [];
     body := "Not found because of proxy error: " ++ err |}.

(** Node's [writeHead] refuses a status outside 100..999 with a RangeError. *)
Definition valid_status (code : Z) : bool := (100 <=? code) && (code <=? 999).

(** The upstream server: the [i]-th request of an exchange gets [up i]. *)
Inductive Upstream :=
| Answer (code : Z) (raw : list (string * string)) (ubody : string)
| Fail (err : string).

(** What [proxyRequest] hands to the engine.  The outbound headers are
    left out: http-proxy's [xfwd] pass appends [x-forwarded-*] values to
    [req.headers] at every [proxy.web] call, from the client socket. *)
Record Outbound := {
  ob_method : string;
  ob_url : string;          (** [req.url] *)
  ob_target : string;       (** [proxyOptions.target] *)
  ob_host : string;         (** the forced [host] header *)
  ob_to_proxy : bool
}.

Definition proxy_request (st : ReqState) (req : Request) : Outbound :=
  let loc := rs_location st in
  let through := rs_get_proxy_for_url st (href loc) in
  let use_proxy := negb (String.eqb through EmptyString) in
  {| ob_method := method req;
     ob_url := if use_proxy then href loc
               else match path loc with Some p => p | None => EmptyString end;
     ob_target := if use_proxy then through else href loc;
     ob_host := host loc;
     ob_to_proxy := use_proxy |}.

Definition is_redirect_status (code : Z) : bool :=
  (code =? 301) || (code =? 302) || (code =? 303) || (code =? 307) || (code =? 308).

Definition is_followed_status (code : Z) : bool :=
  (code =? 301) || (code =? 302) || (code =? 303).

(** [requestState.redirectCount_ + 1 || 1]: undefined + 1 is NaN, which is falsy. *)
Definition incr_count (c : option Z) : Z :=
  match c with
  | None => 1
  | Some n => if n + 1 =? 0 then 1 else n + 1
  end.

(** [!requestState.redirectCount_] *)
Definition count_unset (c : option Z) : bool :=
  match c with None => true | Some n => n =? 0 end.

Definition with_count (st : ReqState) (c : Z) : ReqState :=
  {| rs_get_proxy_for_url := rs_get_proxy_for_url st; rs_max_redirects := rs_max_redirects st;
     rs_cors_max_age := rs_cors_max_age st; rs_location := rs_location st;
     rs_proxy_base_url := rs_proxy_base_url st; rs_redirect_count := Some c |}.

Definition with_location (st : ReqState) (l : Url) : ReqState :=
  {| rs_get_proxy_for_url := rs_get_proxy_for_url st; rs_max_redirects := rs_max_redirects st;
     rs_cors_max_age := rs_cors_max_age st; rs_location := l;
     rs_proxy_base_url := rs_proxy_base_url st; rs_redirect_count := rs_redirect_count st |}.

(** The outcome of [onProxyResponse]: re-issue internally (it returns
    false), let the engine relay [proxyRes] with the given headers, or
    throw ([url.resolve] or [url.parse] on the Location header).  It runs
    in the wrapped [response] listener outside the [try], so an exception
    is uncaught and the client gets no response. *)
Inductive Verdict :=
| Follow (st : ReqState) (req : Request) (res : store)
| Relay (prh : headers) (req : Request) (res : store)
| Crash.

(** The relay-path tail of [onProxyResponse]: strip cookies, set
    [x-final-url], apply [withCORS]. *)
Definition relay_headers (st : ReqState) (req : Request) (prh : headers) : headers * Request :=
  let prh := obj_del "set-cookie" prh in
  let prh := obj_del "set-cookie2" prh in
  let prh := obj_set "x-final-url" (href (rs_location st)) prh in
  with_cors (rs_cors_max_age st) prh req.

(** What becomes of Node's RangeError for an upstream status outside
    100..999 depends on the installed http-proxy.  Where its outgoing pass
    writes the status inside the [response] listener the source wraps in
    [try] (v1.11.1, the version the source links to), the error is caught
    and forwarded to the engine error handler: [Some msg], [msg] being
    the error's rendering by the running Node.  Where the pass only sets
    [res.statusCode] and Node throws later, when the body is piped, the
    error is outside any [try] and uncaught: [None], no response.  It is a
    parameter of the model: the theorems hold for every choice. *)
Class HttpProxy := invalid_status_caught : Z -> option string.

(** The engine's relay of [proxyRes] to [res]: every header of
    [proxyRes.headers] is copied with [setHeader], then the status is
    written; [None] when nothing is answered. *)
Definition engine_relay `{HttpProxy} (code : Z) (prh : headers) (b : string) (res : store)
  : option Response :=
  if valid_status code then
    Some {| status := code; status_message := None; res_headers := write_headers prh res; body := b |}
  else match invalid_status_caught code with
       | Some err => Some (engine_error err)
       | None => None
       end.

Section Proxy.

Context `{IDNA} `{HttpProxy}.

(** Node's [url.resolve(from, to)]; [None] when it throws (it parses both
    arguments with [url.parse]). *)
Variable url_resolve : string -> string -> option string.
(** [isValidHostName]: the top-level-domain pattern of
    [./regexp-top-level-domain] or an IPv4/IPv6 literal. *)
Variable is_valid_host_name : string -> bool.
(** [fs.readFile(help_file, 'utf8')]: [None] on a read error. *)
Variable read_file : string -> option string.

(** ** [onProxyResponse] *)

Definition on_proxy_response (st : ReqState) (req : Request) (res : store)
  (code : Z) (prh : headers) : Verdict :=
  let res := if count_unset (rs_redirect_count st)
             then set_header "x-request-url" (href (rs_location st)) res else res in
  let relay st prh :=
    let '(prh, req) := relay_headers st req prh in Relay prh req res in
  if is_redirect_status code then
    let loc_hdr := obj_get "location" prh in
    match match loc_hdr with
          | Some l =>
              if truthy (Some l)
              then match url_resolve (href (rs_location st)) l with
                   | Some l' => option_map (fun pl => (l', pl)) (parseURL_result l')
                   | None => None
                   end
              else Some (l, None)
          | None => Some (EmptyString, None)
          end with
    | None => Crash
    | Some (loc_hdr, parsed) =>
    match parsed with
    | Some pl =>
        let rewritten := obj_set "location" (rs_proxy_base_url st ++ "/" ++ loc_hdr) prh in
        if is_followed_status code then
          let cnt := incr_count (rs_redirect_count st) in
          let st := with_count st cnt in
          if cnt <=? rs_max_redirects st then
            let res := set_header ("X-CORS-Redirect-" ++ Z_to_string cnt)
                                  (Z_to_string code ++ " " ++ loc_hdr) res in
            let rh := obj_set "content-length" "0" (req_headers req) in
            let rh := obj_del "content-type" rh in
            let req := {| method := "GET"; url := url req; req_headers := rh;
                          encrypted := encrypted req |} in
            Follow (with_location st pl) req res
          else relay st rewritten
        else relay st rewritten
    | None => relay st prh
    end
    end
  else relay st prh.

(** One client-facing exchange: request [i] goes to the upstream, its
    response is inspected, and either relayed or followed by a new request.
    The result is the response the client gets and the outbound requests
    issued, in order; [None] when [onProxyResponse] throws, when an
    invalid status is relayed and the RangeError goes uncaught, or when
    [fuel] runs out. *)
Fixpoint exchange (up : nat -> Upstream) (fuel : nat) (i : nat)
  (st : ReqState) (req : Request) (res : store) : option (Response * list Outbound) :=
  match fuel with
  | O => None
  | S fuel' =>
      let ob := proxy_request st req in
      match up i with
      | Fail e => Some (engine_error e, [ob])
      | Answer code raw b =>
          match on_proxy_response st req res code (node_headers raw) with
          | Follow st' req' res' =>
              match exchange up fuel' (S i) st' req' res' with
              | Some (r, obs) => Some (r, ob :: obs)
              | None => None
              end
          | Relay prh req' res' =>
              match engine_relay code prh b res' with
              | Some r => Some (r, [ob])
              | None => None
              end
          | Crash => None
          end
      end
  end.

(** ** [showUsage] *)

(** The cache [help_text] only ever holds what [fs.readFile] returned for
    the file.  An empty file is cached as the falsy [''], so [showUsage]
    reads it again and again and never answers: [None]. *)
Definition show_usage (help : string) (h : headers) : option Response :=
  let h := obj_set "content-type" (if ends_with ".html" help then "text/html" else "text/plain") h in
  match read_file help with
  | Some data =>
      if String.eqb data EmptyString then None
      else Some {| status := 200; status_message := None;
                   res_headers := write_headers h []; body := data |}
  | None => Some {| status := 500; status_message := None;
                    res_headers := write_headers h []; body := EmptyString |}
  end.

(** ** The request handler returned by [getHandler] *)

(** What the handler does with a request: answer it, hand it to the proxy,
    or write nothing ([showUsage] on an empty help file loops; [url.parse]
    throws in the listener, which takes the process down). *)
Inductive Handled :=
| Respond (r : Response)
| ToProxy (st : ReqState) (req : Request) (res : store)
| NoReply.

Definition reply (code : Z) (msg : string) (h : headers) (b : string) : Response :=
  {| status := code; status_message := Some msg; res_headers := write_headers h []; body := b |}.

Definition handler (cfg : Config) (req0 : Request) : Handled :=
  let rq := normalize_require_header (require_header cfg) in
  let '(cors_headers, req) := with_cors (cors_max_age cfg) [] req0 in
  if String.eqb (method req) "OPTIONS" then
    Respond {| status := 200; status_message := None;
               res_headers := write_headers cors_headers []; body := EmptyString |}
  else
  match parseURL_result (drop 1 (url req)) with
  | None => NoReply
  | Some location =>
  match match handle_initial_request cfg with
        | Some f => f req location
        | None => None
        end with
  | Some r => Respond r
  | None =>
  match location with
  | None =>
      if missing_slash (url req) then
        Respond (reply 400 "Missing slash" cors_headers
                   "The URL is invalid: two slashes are needed after the http(s):.")
      else match show_usage (help_file cfg) cors_headers with
           | Some r => Respond r
           | None => NoReply
           end
  | Some loc =>
  if String.eqb (host loc) "iscorsneeded" then Respond iscorsneeded_reply
  else if port_too_large (port loc) then
    Respond (reply 400 "Invalid port" cors_headers
               ("Port number too large: " ++ match port loc with Some p => p | None => EmptyString end))
  else if (negb (explicit_http_url (url req)) && negb (is_valid_host_name (hostname loc)))%bool then
    Respond (reply 404 "Invalid host" cors_headers ("Invalid host: " ++ hostname loc))
  else if negb (has_required_headers rq (req_headers req)) then
    Respond (reply 400 "Header required" cors_headers
               ("Missing required request header. Must specify one of: " ++
                match rq with Some l => join "," l | None => "null" end))
  else
  let origin := match obj_get "origin" (req_headers req) with Some o => o | None => EmptyString end in
  if existsb (String.eqb origin) (origin_blacklist cfg) then
    Respond (reply 403 "Forbidden" cors_headers
               ("The origin " ++ dq ++ origin ++ dq ++ " was blacklisted by the operator of this proxy."))
  else if (match origin_whitelist cfg with [] => false | _ => true end &&
           negb (existsb (String.eqb origin) (origin_whitelist cfg)))%bool then
    Respond (reply 403 "Forbidden" cors_headers
               ("The origin " ++ dq ++ origin ++ dq ++ " was not whitelisted by the operator of this proxy."))
  else
  let rate := match check_rate_limit cfg with Some f => f origin | None => EmptyString end in
  if negb (String.eqb rate EmptyString) then
    Respond (reply 429 "Too Many Requests" cors_headers
               ("The origin " ++ dq ++ origin ++ dq ++ " has sent too many requests." ++
                String "010" EmptyString ++ rate))
  else if (redirect_same_origin cfg && negb (String.eqb origin EmptyString) &&
           origin_prefixed origin (href loc))%bool then
    let h := obj_set "consty" "origin" cors_headers in
    let h := obj_set "cache-control" "private" h in
    let h := obj_set "location" (href loc) h in
    Respond (reply 301 "Please use a direct request" h EmptyString)
  else
  let base := proxy_base_url req in
  let rh := fold_left (fun hs k => obj_del k hs) (remove_headers cfg) (req_headers req) in
  let rh := fold_left (fun hs k => match obj_get k (set_headers cfg) with
                                   | Some v => obj_set k v hs
                                   | None => hs
                                   end) (obj_keys (set_headers cfg)) rh in
  let st := {| rs_get_proxy_for_url := get_proxy_for_url cfg;
               rs_max_redirects := max_redirects cfg;
               rs_cors_max_age := cors_max_age cfg;
               rs_location := loc; rs_proxy_base_url := base;
               rs_redirect_count := None |} in
  ToProxy st (with_req_headers req rh) []
  end
  end
  end.

(** The server: the handler, then the proxied exchange when the request is
    accepted.  The fuel bounds the number of upstream requests, which the
    redirect cap keeps at most [maxRedirects + 1]; [None] when no response
    is written. *)
Definition serve (cfg : Config) (up : nat -> Upstream) (req : Request)
  : option (Response * list Outbound) :=
  match handler cfg req with
  | Respond r => Some (r, [])
  | ToProxy st req' res => exchange up (S (Z.to_nat (max_redirects cfg))) 0 st req' res
  | NoReply => None
  end.

End Proxy.

(** The IDNA mapping of the examples: the identity, which is what
    [toASCII] does with the lower-case ASCII names they use. *)
#[global] Instance idna_identity : IDNA := fun h => Some h.

(** The http-proxy of the examples: v1.11.1 under Node 13 or later, which
    catches the RangeError and renders it with its code. *)
#[global] Instance http_proxy_1_11_1 : HttpProxy :=
  fun code => Some ("RangeError [ERR_HTTP_INVALID_STATUS_CODE]: Invalid status code: " ++ Z_to_string code).

Definition empty_url : Url :=
  {| protocol := EmptyString; slashes := false; auth := None; host := EmptyString;
     port := None; hostname := EmptyString; hash := None; search := None;
     pathname := None; path := None; href := EmptyString |}.

(** The URL [url.parse] gives for a sample string it accepts. *)
Definition sample_url (s : string) : Url :=
  match url_parse s with Some u => u | None => empty_url end.

(** The defaults of [getHandler] ([getProxyForUrl] answering "no proxy",
    as it does when no proxy environment variable is set). *)
Definition default_config : Config :=
  {| handle_initial_request := None; get_proxy_for_url := fun _ => EmptyString;
     max_redirects := 5; origin_blacklist := []; origin_whitelist := [];
     check_rate_limit := None; redirect_same_origin := false; require_header := RHNull;
     remove_headers := []; set_headers := []; cors_max_age := 0;
     help_file := "help.txt" |}.

(** A sample target and an upstream that redirects [n] times with 302 to
    absolute locations before answering 200. *)
Definition sample_state (mx : Z) : ReqState :=
  {| rs_get_proxy_for_url := fun _ => EmptyString; rs_max_redirects := mx;
     rs_cors_max_age := 0; rs_location := sample_url "http://a.example/";
     rs_proxy_base_url := "http://proxy.example"; rs_redirect_count := None |}.

Definition hop_url (i : nat) : string := "http://a.example/" ++ Z_to_string (Z.of_nat (S i)).

Definition hop_headers (i : nat) : list (string * string) := [("Location", hop_url i)].

Definition hop_body (i : nat) : string := "hop " ++ Z_to_string (Z.of_nat i).

Definition chain_upstream (n : nat) (i : nat) : Upstream :=
  if (i <? n)%nat then Answer 302 (hop_headers i) (hop_body i) else Answer 200 [] "done".

(** The same chain with relative Locations ["/1"], ["/2"], ... *)
Definition rel_headers (i : nat) : list (string * string) :=
  [("Location", "/" ++ Z_to_string (Z.of_nat (S i)))].

Definition rel_upstream (n : nat) (i : nat) : Upstream :=
  if (i <? n)%nat then Answer 302 (rel_headers i) (hop_body i) else Answer 200 [] "done".

(** A [url.resolve] for the examples, on the sample origin: a path that
    starts with [/] is resolved against [http://a.example]. *)
Definition sample_resolve (base l : string) : option string :=
  if starts_with "/" l then Some ("http://a.example" ++ l) else Some l.

(** The location of the [k]-th request of a redirect chain: the first
    target, then the target of each followed redirect. *)
Definition chain_location (loc0 : Url) (p : nat -> Url) (k : nat) : Url :=
  match k with O => loc0 | S k' => p k' end.

(** The defaults with the given origin blacklist and whitelist. *)
Definition origin_config (bl wl : list string) : Config :=
  {| handle_initial_request := None; get_proxy_for_url := fun _ => EmptyString;
     max_redirects := 5; origin_blacklist := bl; origin_whitelist := wl;
     check_rate_limit := None; redirect_same_origin := false; require_header := RHNull;
     remove_headers := []; set_headers := []; cors_max_age := 0;
     help_file := "help.txt" |}.

(** The defaults with [redirectSameOrigin] and [checkRateLimit] set. *)
Definition late_config (same_origin : bool) (limit : option (string -> string)) : Config :=
  {| handle_initial_request := None; get_proxy_for_url := fun _ => EmptyString;
     max_redirects := 5; origin_blacklist := []; origin_whitelist := [];
     check_rate_limit := limit; redirect_same_origin := same_origin; require_header := RHNull;
     remove_headers := []; set_headers := []; cors_max_age := 0;
     help_file := "help.txt" |}.

Definition sample_target : Url :=
  match parseURL "http://a.example/" with Some u => u | None => empty_url end.

(** * Predicates used by the statements below *)

(** The names [withCORS] may assign. *)
Definition cors_header_names : list string :=
  ["Access-Control-Allow-Origin"; "Access-Control-Max-Age"; "Access-Control-Allow-Methods";
   "Access-Control-Allow-Headers"; "Access-Control-Expose-Headers"].

(** Copying [h] into a response with [setHeader] leaves header [n] at [v]:
    the last key of [h] naming [n] (case-insensitively) holds [v]. *)
Definition last_with (n v : string) (h : headers) : Prop :=
  exists ks1 k0 ks2,
    obj_keys h = (ks1 ++ k0 :: ks2)%list /\ lower k0 = lower n /\
    obj_get k0 h = Some v /\ (forall k, In k ks2 -> lower k <> lower n).

(** Every key is lower-case, as in Node's [IncomingMessage.headers]. *)
Definition all_lower (h : headers) : Prop :=
  forall k, In k (obj_keys h) -> lower k = k.

(** * Facts about JavaScript objects and Node's header map *)

Ltac str_cases :=
  repeat match goal with
  | |- context [String.eqb ?a ?b] =>
      let E := fresh "E" in destruct (String.eqb_spec a b) as [E|E]; try subst
  end.

Section ObjFacts.
Context {A : Type}.

Lemma obj_get_set_eq (k : string) (v : A) o : obj_get k (obj_set k v o) = Some v.
Proof.
  induction o as [|[k' v'] o IH]; simpl.
  - now rewrite String.eqb_refl.
  - destruct (String.eqb_spec k' k); simpl.
    + subst; now rewrite String.eqb_refl.
    + rewrite (proj2 (String.eqb_neq k' k) n). exact IH.
Qed.

Lemma obj_get_set_neq (k k' : string) (v : A) o :
  k' <> k -> obj_get k (obj_set k' v o) = obj_get k o.
Proof.
  intros Hne; induction o as [|[k1 v1] o IH]; simpl.
  - now rewrite (proj2 (String.eqb_neq k' k) Hne).
  - destruct (String.eqb_spec k1 k'); simpl.
    + subst. now rewrite (proj2 (String.eqb_neq k' k) Hne).
    + destruct (String.eqb k1 k); [reflexivity | exact IH].
Qed.

Lemma obj_get_del_eq (k : string) (o : obj A) : obj_get k (obj_del k o) = None.
Proof.
  unfold obj_del; induction o as [|[k1 v1] o IH]; simpl; auto.
  destruct (String.eqb_spec k1 k); simpl; auto.
  rewrite (proj2 (String.eqb_neq k1 k) n); exact IH.
Qed.

Lemma obj_get_del_neq (k k' : string) (o : obj A) :
  k' <> k -> obj_get k (obj_del k' o) = obj_get k o.
Proof.
  intros Hne; unfold obj_del; induction o as [|[k1 v1] o IH]; simpl; auto.
  destruct (String.eqb_spec k1 k'); simpl.
  - subst. rewrite (proj2 (String.eqb_neq k' k) Hne). exact IH.
  - destruct (String.eqb k1 k); [reflexivity | exact IH].
Qed.

Lemma keys_set_in (k k' : string) (v : A) o :
  In k (obj_keys (obj_set k' v o)) -> k = k' \/ In k (obj_keys o).
Proof.
  unfold obj_keys; induction o as [|[k1 v1] o IH]; simpl.
  - intros [H|[]]; auto.
  - destruct (String.eqb_spec k1 k'); simpl; intros [H|H]; auto.
    destruct (IH H); auto.
Qed.

Lemma keys_set_self (k : string) (v : A) o : In k (obj_keys (obj_set k v o)).
Proof.
  unfold obj_keys; induction o as [|[k1 v1] o IH]; simpl; auto.
  destruct (String.eqb_spec k1 k); simpl; auto.
Qed.

Lemma keys_set_keep (k k' : string) (v : A) o :
  In k (obj_keys o) -> In k (obj_keys (obj_set k' v o)).
Proof.
  unfold obj_keys; induction o as [|[k1 v1] o IH]; simpl; auto.
  destruct (String.eqb_spec k1 k'); simpl; intros [H|H]; auto.
Qed.

Lemma keys_del_in (k k' : string) (o : obj A) :
  In k (obj_keys (obj_del k' o)) -> k <> k' /\ In k (obj_keys o).
Proof.
  unfold obj_keys, obj_del; induction o as [|[k1 v1] o IH]; simpl; [tauto|].
  destruct (String.eqb_spec k1 k'); simpl; intros H.
  - destruct (IH H); auto.
  - destruct H as [H|H]; [subst; auto|]. destruct (IH H); auto.
Qed.

Lemma keys_set_fresh (k : string) (v : A) o :
  ~ In k (obj_keys o) -> obj_keys (obj_set k v o) = (obj_keys o ++ [k])%list.
Proof.
  unfold obj_keys; induction o as [|[k1 v1] o IH]; simpl; auto.
  intros Hn. destruct (String.eqb_spec k1 k); [subst; tauto|].
  simpl; f_equal; auto.
Qed.

(** Assigning a key either keeps the key list or appends the key. *)
Lemma keys_set_shape (k : string) (v : A) o :
  obj_keys (obj_set k v o) = obj_keys o \/ obj_keys (obj_set k v o) = (obj_keys o ++ [k])%list.
Proof.
  unfold obj_keys; induction o as [|[k1 v1] o IH]; simpl; auto.
  destruct (String.eqb_spec k1 k); simpl; auto.
  destruct IH as [H|H]; rewrite H; auto.
Qed.

End ObjFacts.

(** [lower] is idempotent and lower-cased names never equal a name with a
    capital letter. *)
Lemma lower_ascii_idem c : lower_ascii (lower_ascii c) = lower_ascii c.
Proof. destruct c as [[] [] [] [] [] [] [] []]; reflexivity. Qed.

Lemma lower_idem s : lower (lower s) = lower s.
Proof. induction s; simpl; auto. now rewrite lower_ascii_idem, IHs. Qed.

Lemma lower_app s t : lower (s ++ t) = lower s ++ lower t.
Proof. induction s; simpl; auto. now rewrite IHs. Qed.

Lemma get_header_set_same n n' v s :
  lower n = lower n' -> get_header n (set_header n' v s) = Some v.
Proof. intros H; unfold get_header, set_header. rewrite H, obj_get_set_eq. reflexivity. Qed.

Lemma get_header_set_other n n' v s :
  lower n' <> lower n -> get_header n (set_header n' v s) = get_header n s.
Proof. intros H; unfold get_header, set_header. now rewrite obj_get_set_neq. Qed.

Section WriteHeaders.
Variable g : string -> option string.

Lemma write_untouched n ks s :
  (forall k, In k ks -> lower k <> lower n) ->
  get_header n (fold_left (write_step g) ks s) = get_header n s.
Proof.
  revert s; induction ks as [|k ks IH]; intros s H; simpl; auto.
  rewrite IH by (intros; apply H; simpl; auto).
  unfold write_step; destruct (g k); auto.
  apply get_header_set_other, H; simpl; auto.
Qed.

Lemma write_keeps_some n ks s :
  get_header n s <> None -> get_header n (fold_left (write_step g) ks s) <> None.
Proof.
  revert s; induction ks as [|k ks IH]; intros s H; simpl; auto.
  apply IH. unfold write_step; destruct (g k); auto.
  destruct (string_dec (lower k) (lower n)) as [E|E].
  - rewrite get_header_set_same by auto. discriminate.
  - now rewrite get_header_set_other.
Qed.

Lemma write_last n ks1 k0 ks2 v s :
  lower k0 = lower n -> g k0 = Some v ->
  (forall k, In k ks2 -> lower k <> lower n) ->
  get_header n (fold_left (write_step g) (ks1 ++ k0 :: ks2)%list s) = Some v.
Proof.
  intros E G H. rewrite fold_left_app; simpl.
  rewrite write_untouched by exact H.
  unfold write_step at 1; rewrite G. apply get_header_set_same; auto.
Qed.

Lemma write_only_key_stays n k0 v ks s :
  lower k0 = lower n -> g k0 = Some v ->
  (forall k, In k ks -> lower k = lower n -> k = k0) ->
  get_header n s = Some v -> get_header n (fold_left (write_step g) ks s) = Some v.
Proof.
  intros E G; revert s; induction ks as [|k ks IH]; intros s H Hs; simpl; auto.
  apply IH; [intros; apply H; simpl; auto|].
  unfold write_step; destruct (string_dec (lower k) (lower n)) as [Ek|Ek].
  - rewrite (H k (or_introl eq_refl) Ek), G. apply get_header_set_same; auto.
  - destruct (g k); auto. now rewrite get_header_set_other.
Qed.

Lemma write_only_key n k0 v ks s :
  lower k0 = lower n -> g k0 = Some v -> In k0 ks ->
  (forall k, In k ks -> lower k = lower n -> k = k0) ->
  get_header n (fold_left (write_step g) ks s) = Some v.
Proof.
  intros E G; revert s; induction ks as [|k ks IH]; intros s Hin H; simpl; [destruct Hin|].
  destruct Hin as [Ek|Hin].
  - subst k. apply (write_only_key_stays n k0 v); auto.
    + intros; apply H; simpl; auto.
    + unfold write_step; rewrite G. apply get_header_set_same; auto.
  - apply IH; auto. intros; apply H; simpl; auto.
Qed.

End WriteHeaders.

Lemma write_headers_fold h s :
  write_headers h s = fold_left (write_step (fun k => obj_get k h)) (obj_keys h) s.
Proof. reflexivity. Qed.

(** * The URL normalizer *)

Lemma rtrim_prefix p s :
  forallb (fun c => negb (is_ws c)) (list_ascii_of_string p) = true ->
  rtrim (p ++ s) = p ++ rtrim s.
Proof.
  induction p as [|c p IH]; simpl; auto.
  intros H; apply andb_true_iff in H as [Hc Hp].
  rewrite (IH Hp). destruct (is_ws c); [discriminate|].
  destruct (p ++ rtrim s)%string; reflexivity.
Qed.

Lemma fix_backslashes_prefix p s :
  forallb (fun c => negb (Ascii.eqb c "?" || Ascii.eqb c "#" || Ascii.eqb c backslash))
          (list_ascii_of_string p) = true ->
  fix_backslashes (p ++ s) = p ++ fix_backslashes s.
Proof.
  induction p as [|c p IH]; simpl; auto.
  intros H; apply andb_true_iff in H as [Hc Hp].
  rewrite (IH Hp).
  destruct (Ascii.eqb c "?"), (Ascii.eqb c "#"), (Ascii.eqb c backslash); try discriminate.
  reflexivity.
Qed.

Lemma url_finish_protocol p sl au h prt hn rest :
  protocol (url_finish p sl au h prt hn rest) = p.
Proof.
  unfold url_finish.
  destruct (break_at _ rest) as [bh hs].
  destruct (break_at _ bh) as [bq qs]. reflexivity.
Qed.

Ltac split_lets_in H :=
  repeat match type of H with
  | context [match ?x with pair _ _ => _ end] => destruct x
  | context [if ?b then _ else _] => destruct b
  | context [match ?x with Some _ => _ | None => _ end] => destruct x
  end; try discriminate H.

(** The protocol [url.parse] reports for a string that starts with [sch],
    [sch] being [http:] or [https:]. *)
Lemma url_parse_protocol {idna : IDNA} {hp : HttpProxy} sch x u :
  (sch = "http:" \/ sch = "https:") -> url_parse (sch ++ x) = Some u -> protocol u = sch.
Proof.
  intros Hs Hu; unfold url_parse, trim in Hu.
  assert (Hl : ltrim (sch ++ x) = (sch ++ x)%string) by (destruct Hs; subst; reflexivity).
  rewrite Hl, rtrim_prefix in Hu by (destruct Hs; subst; reflexivity).
  rewrite fix_backslashes_prefix in Hu by (destruct Hs; subst; reflexivity).
  assert (Hp : split_protocol (sch ++ fix_backslashes (rtrim x)) =
               Some (sch, fix_backslashes (rtrim x))) by (destruct Hs; subst; reflexivity).
  rewrite Hp in Hu.
  assert (Hlow : lower sch = sch) by (destruct Hs; subst; reflexivity).
  rewrite Hlow in Hu.
  split_lets_in Hu; injection Hu as <-; apply url_finish_protocol.
Qed.

(** ** Claim C4 *)

(** C4: for an input that [parseURL] accepts and whose match binds no
    scheme group ([!match[1]]), the scheme of the resulting URL is [https:]
    exactly when the captured port (group 4) is the string [443], and
    [http:] otherwise. *)
Theorem parseURL_scheme_inference {idna : IDNA} {hp : HttpProxy} (s : string) (m : RMatch) (u : Url) :
  url_regex s = Some m -> m_protocol m = None -> parseURL s = Some u ->
  (protocol u = "https:" <-> m_port m = Some "443") /\
  (protocol u = "http:" <-> m_port m <> Some "443").
Proof.
  intros Hr Hp Hu. unfold parseURL, parseURL_result in Hu. rewrite Hr, Hp in Hu. cbv zeta in Hu.
  destruct (http_scheme_prefix s); [discriminate|].
  destruct (url_parse _) as [u0|] eqn:Hup; [|discriminate].
  destruct (String.eqb (hostname u0) EmptyString); [discriminate|injection Hu as <-].
  eapply url_parse_protocol in Hup;
    [|destruct (m_port m) as [p|]; [destruct (String.eqb p "443")|]; auto].
  rewrite Hup.
  destruct (m_port m) as [p|].
  - destruct (String.eqb_spec p "443") as [E|E].
    + subst p. split; split; intros; congruence.
    + split; split; intros H; try congruence.
  - split; split; intros; congruence.
Qed.

(** ** Claim C9 *)

(** C9: [parseURL] rejects "http:/onlyone" and ":1/".  The first is matched
    with no scheme group (the pattern binds "http:" as the host) and is
    refused by the [/^https?:/i] guard; the second is matched without a
    scheme, rewritten to "http://:1/", which [url.parse] accepts without
    throwing (no auth, empty host, so no IDNA step) and whose parsed
    hostname is empty.  Neither verdict depends on the IDNA mapping. *)
Theorem parseURL_rejects_malformed {idna : IDNA} {hp : HttpProxy} :
  parseURL "http:/onlyone" = None /\
  (exists m, url_regex "http:/onlyone" = Some m /\ m_protocol m = None) /\
  http_scheme_prefix "http:/onlyone" = true /\
  parseURL ":1/" = None /\
  (exists m, url_regex ":1/" = Some m /\ m_protocol m = None /\ m_port m = None) /\
  option_map hostname (url_parse "http://:1/") = Some EmptyString.
Proof.
  split; [reflexivity|]. split; [eexists; split; reflexivity|].
  split; [reflexivity|]. split; [reflexivity|].
  split; [eexists; repeat split; reflexivity|]. reflexivity.
Qed.

(** * The CORS header injector *)

Lemma write_last_with n v h s :
  last_with n v h -> get_header n (write_headers h s) = Some v.
Proof.
  intros (ks1 & k0 & ks2 & Hk & E & G & H).
  rewrite write_headers_fold, Hk. apply write_last; auto.
Qed.

Lemma last_with_set n v k' v' h :
  lower k' <> lower n -> last_with n v h -> last_with n v (obj_set k' v' h).
Proof.
  intros Hk (ks1 & k0 & ks2 & Hks & E & G & H).
  assert (Hne : k' <> k0) by (intros ->; congruence).
  destruct (keys_set_shape k' v' h) as [K|K].
  - exists ks1, k0, ks2. rewrite K, obj_get_set_neq; auto.
  - exists ks1, k0, (ks2 ++ [k'])%list. rewrite K, Hks, obj_get_set_neq by auto.
    repeat split; auto.
    + rewrite <- app_assoc. reflexivity.
    + intros k Hin. apply in_app_or in Hin as [Hin|[<-|[]]]; auto.
Qed.

Lemma last_with_set_fresh n v h :
  ~ In n (obj_keys h) -> last_with n v (obj_set n v h).
Proof.
  intros Hn. exists (obj_keys h), n, []. rewrite keys_set_fresh by auto.
  repeat split; auto. apply obj_get_set_eq.
Qed.

Ltac lower_neq := let H := fresh in intros H; vm_compute in H; discriminate H.

(** Induction principle for [withCORS]: it assigns
    [Access-Control-Allow-Origin] first, then only other CORS names. *)
Lemma with_cors_ind (P : headers -> Prop) ma h req :
  P (obj_set "Access-Control-Allow-Origin" "*" h) ->
  (forall k v h', In k (tl cors_header_names) -> P h' -> P (obj_set k v h')) ->
  P (fst (with_cors ma h req)).
Proof.
  intros H0 Hs. unfold with_cors.
  repeat (match goal with
          | |- context [if ?b then _ else _] => destruct b
          | |- context [match obj_get ?k ?o with _ => _ end] => destruct (obj_get k o)
          end; simpl);
  repeat (apply Hs; [simpl; tauto|]); auto.
Qed.


(** [withCORS] puts [Access-Control-Allow-Origin: *] last among the keys
    naming that header, when the incoming object does not already hold that
    exact key. *)
Lemma with_cors_acao ma h req :
  ~ In "Access-Control-Allow-Origin" (obj_keys h) ->
  last_with "Access-Control-Allow-Origin" "*" (fst (with_cors ma h req)).
Proof.
  intros Hn. apply with_cors_ind.
  - apply last_with_set_fresh; auto.
  - intros k v h' Hk L. apply last_with_set; auto.
    simpl in Hk; repeat destruct Hk as [<-|Hk]; try lower_neq; destruct Hk.
Qed.

Lemma with_cors_keys_in ma h req k :
  In k (obj_keys (fst (with_cors ma h req))) -> In k (obj_keys h) \/ In k cors_header_names.
Proof.
  revert k. apply (with_cors_ind (fun h' => forall k, In k (obj_keys h') ->
                                    In k (obj_keys h) \/ In k cors_header_names)).
  - intros k Hk. apply keys_set_in in Hk as [->|Hk]; simpl; auto.
  - intros k v h' Hk IH k' Hk'. apply keys_set_in in Hk' as [->|Hk']; auto.
    right. destruct cors_header_names; simpl in *; auto.
Qed.

Lemma with_cors_get_other ma h req k :
  ~ In k cors_header_names -> obj_get k (fst (with_cors ma h req)) = obj_get k h.
Proof.
  intros Hk. apply (with_cors_ind (fun h' => obj_get k h' = obj_get k h)).
  - apply obj_get_set_neq. intros <-. apply Hk; simpl; auto.
  - intros k' v h' Hk' IH. rewrite obj_get_set_neq; auto.
    intros <-. apply Hk. destruct cors_header_names; simpl in *; auto.
Qed.

Lemma with_cors_keys_keep ma h req k :
  In k (obj_keys h) -> In k (obj_keys (fst (with_cors ma h req))).
Proof.
  intros Hk. apply (with_cors_ind (fun h' => In k (obj_keys h'))).
  - now apply keys_set_keep.
  - intros; now apply keys_set_keep.
Qed.

(** * The redirect follower *)

Lemma parseURL_result_some {idna : IDNA} {hp : HttpProxy} s u :
  parseURL s = Some u -> parseURL_result s = Some (Some u).
Proof. unfold parseURL. destruct (parseURL_result s) as [[|]|]; congruence. Qed.

Lemma parseURL_of_result {idna : IDNA} {hp : HttpProxy} s l :
  parseURL_result s = Some l -> parseURL s = l.
Proof. unfold parseURL. intros ->. reflexivity. Qed.

Lemma opr_relay_shape {idna : IDNA} {hp : HttpProxy} R st req res code prh prh' req' res' :
  on_proxy_response R st req res code prh = Relay prh' req' res' ->
  exists st' p,
    relay_headers st' req p = (prh', req') /\
    rs_location st' = rs_location st /\ rs_cors_max_age st' = rs_cors_max_age st /\
    (p = prh \/ exists v, p = obj_set "location" v prh) /\
    res' = (if count_unset (rs_redirect_count st)
            then set_header "x-request-url" (href (rs_location st)) res else res).
Proof.
  intros H. unfold on_proxy_response, option_map in H. cbv zeta in H.
  repeat match type of H with
  | context [if ?b then _ else _] => destruct b
  | context [match ?x with Some _ => _ | None => _ end] => destruct x
  | context [match ?x with pair _ _ => _ end] => let E := fresh "E" in destruct x eqn:E
  end; try discriminate;
  injection H as <- <- <-;
  eexists _, _; (split; [eassumption|]); (split; [reflexivity|]);
  (split; [reflexivity|]); (split; [eauto|]); reflexivity.
Qed.

Lemma all_lower_set k v h : lower k = k -> all_lower h -> all_lower (obj_set k v h).
Proof.
  intros Hk Hh k' Hin. apply keys_set_in in Hin as [->|Hin]; auto.
Qed.

Lemma all_lower_del k h : all_lower h -> all_lower (obj_del k h).
Proof. intros Hh k' Hin. apply keys_del_in in Hin as [_ Hin]; auto. Qed.

Lemma node_headers_all_lower raw : all_lower (node_headers raw).
Proof.
  unfold node_headers. assert (H0 : all_lower []) by (intros k []).
  revert H0. generalize (@nil (string * string)) as acc.
  induction raw as [|[n v] raw IH]; intros acc Hacc; simpl; auto.
  apply IH. destruct (obj_get (lower n) acc); [destruct (drops_duplicates _); [exact Hacc|]|];
    apply all_lower_set; auto; apply lower_idem.
Qed.

(** The headers that reach [withCORS] on the relay path. *)
Lemma relay_pre_all_lower st p :
  all_lower p ->
  all_lower (obj_set "x-final-url" (href (rs_location st))
               (obj_del "set-cookie2" (obj_del "set-cookie" p))).
Proof. intros H. apply all_lower_set; [reflexivity|]. now do 2 apply all_lower_del. Qed.

Lemma relay_headers_acao st req p :
  all_lower p -> last_with "Access-Control-Allow-Origin" "*" (fst (relay_headers st req p)).
Proof.
  intros H. unfold relay_headers. apply with_cors_acao.
  intros Hin. apply (relay_pre_all_lower st) in H. apply H in Hin. vm_compute in Hin. discriminate.
Qed.

Lemma all_lower_location p v : all_lower p -> all_lower (obj_set "location" v p).
Proof. intros; apply all_lower_set; auto. Qed.

Lemma engine_error_acao e :
  get_header "Access-Control-Allow-Origin" (res_headers (engine_error e)) = Some "*".
Proof. reflexivity. Qed.

Lemma engine_relay_acao {hp : HttpProxy} code prh b res r :
  last_with "Access-Control-Allow-Origin" "*" prh ->
  engine_relay code prh b res = Some r ->
  get_header "Access-Control-Allow-Origin" (res_headers r) = Some "*".
Proof.
  intros L. unfold engine_relay. destruct (valid_status code).
  - intros E; injection E as <-. now apply write_last_with.
  - destruct (invalid_status_caught code); [|discriminate]. intros E; injection E as <-. reflexivity.
Qed.

(** Every response of an exchange carries [Access-Control-Allow-Origin: *]. *)
Lemma exchange_acao {idna : IDNA} {hp : HttpProxy} R up fuel i st req res r obs :
  exchange R up fuel i st req res = Some (r, obs) ->
  get_header "Access-Control-Allow-Origin" (res_headers r) = Some "*".
Proof.
  revert i st req res obs. induction fuel as [|fuel IH]; intros i st req res obs H; simpl in H.
  - discriminate.
  - destruct (up i) as [code raw b|e].
    + destruct (on_proxy_response R st req res code (node_headers raw)) as [st' req' res'|prh req' res'|] eqn:O; [| |discriminate H].
      * destruct (exchange R up fuel (S i) st' req' res') as [[r' obs']|] eqn:X; [|discriminate].
        injection H as <- _. eapply IH; eauto.
      * destruct (engine_relay code prh b res') as [r0|] eqn:Er; [|discriminate H].
        injection H as <- _.
        apply opr_relay_shape in O as (st0 & p & Hrel & _ & _ & Hp & _).
        refine (engine_relay_acao code prh b res' r0 _ Er).
        replace prh with (fst (relay_headers st0 req p)) by now rewrite Hrel.
        apply relay_headers_acao.
        destruct Hp as [->|[v ->]]; [|apply all_lower_location]; apply node_headers_all_lower.
    + injection H as <- _. reflexivity.
Qed.

Lemma with_cors_req ma h req :
  method (snd (with_cors ma h req)) = method req /\
  url (snd (with_cors ma h req)) = url req /\
  forall k, k <> "Access-Control-Request-Method" -> k <> "Access-Control-Request-Headers" ->
    obj_get k (req_headers (snd (with_cors ma h req))) = obj_get k (req_headers req).
Proof.
  unfold with_cors.
  repeat (match goal with
          | |- context [if ?b then _ else _] => destruct b
          | |- context [match obj_get ?k ?o with _ => _ end] => destruct (obj_get k o)
          end; simpl);
  (split; [reflexivity|split; [reflexivity|]]); intros k H1 H2;
  rewrite ?obj_get_del_neq by auto; reflexivity.
Qed.

(** Every response the handler writes itself carries
    [Access-Control-Allow-Origin: *], except the reply to the self-test
    probe (a request, not a preflight, whose target [parseURL] reads with
    the host [iscorsneeded]) and a reply the [handleInitialRequest] hook
    returns for the request and the location [parseURL] read. *)
Lemma handler_acao {idna : IDNA} {hp : HttpProxy} V F cfg req0 r :
  handler V F cfg req0 = Respond r ->
  get_header "Access-Control-Allow-Origin" (res_headers r) = Some "*" \/
  (method req0 <> "OPTIONS" /\
   exists loc, parseURL (drop 1 (url req0)) = Some loc /\ host loc = "iscorsneeded" /\
               r = iscorsneeded_reply) \/
  (exists f, handle_initial_request cfg = Some f /\
             f (snd (with_cors (cors_max_age cfg) [] req0)) (parseURL (drop 1 (url req0))) = Some r).
Proof.
  intros H. unfold handler in H.
  pose proof (with_cors_req (cors_max_age cfg) [] req0) as (Hm & Hu & _).
  assert (L : last_with "Access-Control-Allow-Origin" "*" (fst (with_cors (cors_max_age cfg) [] req0)))
    by (apply with_cors_acao; intros []).
  destruct (with_cors (cors_max_age cfg) [] req0) as [ch req] eqn:W.
  cbn [fst snd] in Hm, Hu, L |- *. rewrite <- Hm, <- Hu.
  destruct (String.eqb (method req) "OPTIONS") eqn:Eo.
  { injection H as <-. left. apply write_last_with. exact L. }
  apply String.eqb_neq in Eo.
  destruct (parseURL_result (drop 1 (url req))) as [location|] eqn:Ep; [|discriminate H].
  assert (Hpl : parseURL (drop 1 (url req)) = location) by (unfold parseURL; now rewrite Ep).
  rewrite Hpl.
  destruct (match handle_initial_request cfg with
            | Some f => f req location
            | None => None
            end) as [r1|] eqn:Hk.
  { injection H as <-. right; right.
    destruct (handle_initial_request cfg) as [f|]; [|discriminate Hk].
    exists f. split; [reflexivity|exact Hk]. }
  destruct location as [loc|].
  - destruct (String.eqb (host loc) "iscorsneeded") eqn:Eh.
    { injection H as <-. right; left. split; [exact Eo|].
      exists loc. apply String.eqb_eq in Eh. auto. }
    left.
    repeat match type of H with
    | context [if ?b then _ else _] => destruct b
    end; try discriminate H; injection H as <-; simpl; apply write_last_with;
      repeat (apply last_with_set; [lower_neq|]); exact L.
  - left. destruct (missing_slash (url req)).
    + injection H as <-. simpl. apply write_last_with. exact L.
    + destruct (show_usage F (help_file cfg) ch) as [r1|] eqn:Es; [|discriminate H].
      injection H as <-. unfold show_usage in Es.
      destruct (F (help_file cfg)) as [d|].
      * destruct (String.eqb d EmptyString); [discriminate Es|].
        injection Es as <-. simpl. apply write_last_with.
        apply last_with_set; [lower_neq|exact L].
      * injection Es as <-. simpl. apply write_last_with.
        apply last_with_set; [lower_neq|exact L].
Qed.

Lemma opr_follow_res {idna : IDNA} {hp : HttpProxy} R st req res code prh st' req' res' :
  on_proxy_response R st req res code prh = Follow st' req' res' ->
  exists c v, res' = set_header ("X-CORS-Redirect-" ++ c) v
                 (if count_unset (rs_redirect_count st)
                  then set_header "x-request-url" (href (rs_location st)) res else res).
Proof.
  intros H. unfold on_proxy_response in H. cbv zeta in H.
  repeat match type of H with
  | context [if ?b then _ else _] => destruct b
  | context [match ?x with Some _ => _ | None => _ end] => destruct x
  | context [match ?x with pair _ _ => _ end] => let E := fresh "E" in destruct x eqn:E
  end; try discriminate;
  injection H as _ _ <-; do 2 eexists; reflexivity.
Qed.

Lemma get_header_debug n c v s :
  (n = "set-cookie" \/ n = "set-cookie2") ->
  get_header n (set_header ("X-CORS-Redirect-" ++ c) v s) = get_header n s.
Proof.
  intros Hn. apply get_header_set_other. rewrite lower_app.
  destruct Hn as [->| ->]; simpl; discriminate.
Qed.

Lemma relay_headers_no_cookie st req p n k :
  all_lower p -> (n = "set-cookie" \/ n = "set-cookie2") ->
  In k (obj_keys (fst (relay_headers st req p))) -> lower k <> lower n.
Proof.
  intros Hp Hn Hk. unfold relay_headers in Hk.
  apply with_cors_keys_in in Hk as [Hk|Hk].
  - apply keys_set_in in Hk as [->|Hk]; [destruct Hn as [->| ->]; lower_neq|].
    apply keys_del_in in Hk as [H2 Hk]. apply keys_del_in in Hk as [H1 Hk].
    rewrite (Hp k Hk). destruct Hn as [->| ->]; simpl; auto.
  - simpl in Hk; destruct Hn as [->| ->];
    repeat destruct Hk as [<-|Hk]; try lower_neq; destruct Hk.
Qed.

Lemma exchange_no_cookie {idna : IDNA} {hp : HttpProxy} R up fuel i st req res r obs n :
  (n = "set-cookie" \/ n = "set-cookie2") ->
  get_header n res = None ->
  exchange R up fuel i st req res = Some (r, obs) ->
  get_header n (res_headers r) = None.
Proof.
  intros Hn. revert i st req res obs.
  induction fuel as [|fuel IH]; intros i st req res obs Hres H; simpl in H; [discriminate|].
  assert (H0 : get_header n (if count_unset (rs_redirect_count st)
                             then set_header "x-request-url" (href (rs_location st)) res
                             else res) = None).
  { destruct (count_unset _); auto. rewrite get_header_set_other; auto.
    destruct Hn as [->| ->]; lower_neq. }
  destruct (up i) as [code raw b|e].
  - destruct (on_proxy_response R st req res code (node_headers raw)) as [st' req' res'|prh req' res'|] eqn:O; [| |discriminate H].
    + destruct (exchange R up fuel (S i) st' req' res') as [[r' obs']|] eqn:X; [|discriminate].
      injection H as <- _. eapply IH; [|exact X].
      apply opr_follow_res in O as (c & v & ->). rewrite get_header_debug; auto.
    + destruct (engine_relay code prh b res') as [r0|] eqn:Er; [|discriminate H].
      injection H as <- _.
      apply opr_relay_shape in O as (st0 & p & Hrel & _ & _ & Hp & ->).
      revert Er. unfold engine_relay. destruct (valid_status code).
      * intros E; injection E as <-. cbn [res_headers].
        rewrite write_headers_fold, write_untouched; auto.
        intros k Hk. replace prh with (fst (relay_headers st0 req p)) in Hk by now rewrite Hrel.
        eapply relay_headers_no_cookie; eauto.
        destruct Hp as [->|[v ->]]; [|apply all_lower_location]; apply node_headers_all_lower.
      * destruct (invalid_status_caught code); [|discriminate]. intros E; injection E as <-.
        destruct Hn as [->| ->]; reflexivity.
  - injection H as <- _. destruct Hn as [->| ->]; reflexivity.
Qed.


(** C1 (amended): every response the server produces, whether written by the
    request handler, relayed from the upstream or written by the engine error
    handler, carries [Access-Control-Allow-Origin: *], except two.  One is
    the reply to the self-test probe: a request, not a preflight, whose
    target [parseURL] reads with the host [iscorsneeded].  The other is a
    reply the [handleInitialRequest] hook itself returns when it is called
    with this request and the location [parseURL] read from its path. *)
Theorem serve_acao {idna : IDNA} {hp : HttpProxy} R V F cfg up req r obs :
  serve R V F cfg up req = Some (r, obs) ->
  get_header "Access-Control-Allow-Origin" (res_headers r) = Some "*" \/
  (method req <> "OPTIONS" /\
   exists loc, parseURL (drop 1 (url req)) = Some loc /\ host loc = "iscorsneeded" /\
               r = iscorsneeded_reply) \/
  (exists f, handle_initial_request cfg = Some f /\
             f (snd (with_cors (cors_max_age cfg) [] req)) (parseURL (drop 1 (url req))) = Some r).
Proof.
  intros H. unfold serve in H.
  destruct (handler V F cfg req) as [r0|st req' res|] eqn:E.
  - injection H as <- _. eapply handler_acao; eauto.
  - left. eapply exchange_acao; eauto.
  - discriminate H.
Qed.

Lemma serve_acao_witness :
  match serve (fun _ l => Some l) (fun _ => true) (fun _ => None) default_config
          (fun _ => Answer 200 [("Set-Cookie", "a=b")] "ok")
          (mk_request "GET" "/http://a.example/x" [("Origin", "https://o.example")] false) with
  | Some (r, _) =>
      get_header "Access-Control-Allow-Origin" (res_headers r) = Some "*" \/
      ("GET" <> "OPTIONS" /\
       exists loc, parseURL "http://a.example/x" = Some loc /\ host loc = "iscorsneeded" /\
                   r = iscorsneeded_reply) \/
      (exists f, handle_initial_request default_config = Some f /\
                 f (snd (with_cors 0 [] (mk_request "GET" "/http://a.example/x"
                                           [("Origin", "https://o.example")] false)))
                   (parseURL "http://a.example/x") = Some r)
  | None => False
  end.
Proof.
  destruct (serve _ _ _ _ _ _) as [[r obs]|] eqn:E; [|vm_compute in E; discriminate E].
  exact (serve_acao (fun _ l => Some l) (fun _ => true) (fun _ => None) default_config
           (fun _ => Answer 200 [("Set-Cookie", "a=b")] "ok")
           (mk_request "GET" "/http://a.example/x" [("Origin", "https://o.example")] false) r obs E).
Defined.

(** C1, counterexample to the original text: the [/iscorsneeded] probe is
    answered by the request handler without [Access-Control-Allow-Origin]. *)
Lemma iscorsneeded_no_acao :
  handler (fun _ => true) (fun _ => None) default_config
    (mk_request "GET" "/iscorsneeded" [] false) = Respond iscorsneeded_reply /\
  get_header "Access-Control-Allow-Origin" (res_headers iscorsneeded_reply) = None.
Proof. split; vm_compute; reflexivity. Defined.

Lemma parseURL_scheme_inference_witness :
  match url_regex "example.com:443/x", parseURL "example.com:443/x" with
  | Some m, Some u => (protocol u = "https:" <-> m_port m = Some "443") /\
                      (protocol u = "http:" <-> m_port m <> Some "443")
  | _, _ => False
  end.
Proof.
  destruct (url_regex "example.com:443/x") as [m|] eqn:E1; [|vm_compute in E1; discriminate E1].
  destruct (parseURL "example.com:443/x") as [u|] eqn:E2; [|vm_compute in E2; discriminate E2].
  apply (parseURL_scheme_inference "example.com:443/x" m u E1); [|exact E2].
  vm_compute in E1. injection E1 as <-. reflexivity.
Defined.

(** C5: whatever headers the upstream sends, the response the client gets
    from a proxied exchange (relayed, or the engine error reply) has neither
    [set-cookie] nor [set-cookie2], also after redirects were followed. *)
Theorem relayed_no_set_cookie {idna : IDNA} {hp : HttpProxy} R up fuel i st req r obs :
  exchange R up fuel i st req [] = Some (r, obs) ->
  get_header "set-cookie" (res_headers r) = None /\
  get_header "set-cookie2" (res_headers r) = None.
Proof.
  intros H. split; (eapply (exchange_no_cookie R up fuel i st req []); [|reflexivity|exact H]); auto.
Qed.

Lemma relayed_no_set_cookie_witness :
  match exchange (fun _ l => Some l)
          (fun i => match i with
                    | O => Answer 302 [("Location", "http://a.example/next"); ("Set-Cookie", "a=1")] EmptyString
                    | _ => Answer 200 [("Set-Cookie2", "b=2"); ("Set-Cookie", "c=3")] "ok"
                    end) 6 0
          {| rs_get_proxy_for_url := fun _ => EmptyString; rs_max_redirects := 5;
             rs_cors_max_age := 0; rs_location := sample_url "http://a.example/";
             rs_proxy_base_url := "http://proxy.example"; rs_redirect_count := None |}
          (mk_request "GET" "/http://a.example/" [] false) [] with
  | Some (r, _) => get_header "set-cookie" (res_headers r) = None /\
                   get_header "set-cookie2" (res_headers r) = None
  | None => False
  end.
Proof.
  destruct (exchange _ _ _ _ _ _ _) as [[r obs]|] eqn:E; [|vm_compute in E; discriminate E].
  exact (relayed_no_set_cookie _ _ _ _ _ _ r obs E).
Defined.

(** * Redirect handling, exactly *)

Lemma keys_del_keep {A} (k k' : string) (o : obj A) :
  k <> k' -> In k (obj_keys o) -> In k (obj_keys (obj_del k' o)).
Proof.
  intros Hne. unfold obj_del, obj_keys.
  induction o as [|[k1 v1] o IH]; simpl; [auto|].
  intros [E|Hin].
  - subst k1. destruct (String.eqb_spec k k'); [contradiction|]. simpl; auto.
  - destruct (String.eqb k1 k'); simpl; auto.
Qed.

Lemma get_header_set_keep n n' v s :
  get_header n s <> None -> get_header n (set_header n' v s) <> None.
Proof.
  intros H. destruct (string_dec (lower n') (lower n)) as [E|E].
  - rewrite get_header_set_same by auto. discriminate.
  - now rewrite get_header_set_other.
Qed.

Lemma pre_res_keep st res n :
  get_header n res <> None ->
  get_header n (if count_unset (rs_redirect_count st)
                then set_header "x-request-url" (href (rs_location st)) res else res) <> None.
Proof. intros H. destruct (count_unset _); auto. now apply get_header_set_keep. Qed.

Lemma relay_location st req p v s :
  all_lower p ->
  get_header "location" (write_headers (fst (relay_headers st req (obj_set "location" v p))) s) = Some v.
Proof.
  intros Hp. rewrite write_headers_fold.
  assert (Hnc : ~ In "location" cors_header_names).
  { intros Hin; simpl in Hin. repeat destruct Hin as [Hin|Hin]; try discriminate Hin; destruct Hin. }
  apply (write_only_key _ "location" "location" v); [reflexivity| | |].
  - unfold relay_headers. rewrite with_cors_get_other by exact Hnc.
    rewrite obj_get_set_neq by discriminate.
    rewrite !obj_get_del_neq by discriminate. apply obj_get_set_eq.
  - unfold relay_headers. apply with_cors_keys_keep, keys_set_keep.
    apply keys_del_keep; [discriminate|]. apply keys_del_keep; [discriminate|].
    apply keys_set_self.
  - intros k Hk Hl. unfold relay_headers in Hk.
    apply with_cors_keys_in in Hk as [Hk|Hk].
    + apply (relay_pre_all_lower st) in Hk; [|now apply all_lower_location].
      rewrite <- Hk. exact Hl.
    + simpl in Hk. repeat destruct Hk as [<-|Hk]; try (vm_compute in Hl; discriminate Hl).
      destruct Hk.
Qed.

Lemma opr_not_redirect {idna : IDNA} {hp : HttpProxy} R st req res code prh :
  is_redirect_status code = false ->
  on_proxy_response R st req res code prh =
  Relay (fst (relay_headers st req prh)) (snd (relay_headers st req prh))
        (if count_unset (rs_redirect_count st)
         then set_header "x-request-url" (href (rs_location st)) res else res).
Proof.
  intros H. unfold on_proxy_response. cbv zeta. rewrite H.
  now destruct (relay_headers st req prh).
Qed.

Lemma truthy_nonempty l : l <> EmptyString -> truthy (Some l) = true.
Proof. intros H. unfold truthy. destruct (String.eqb_spec l EmptyString); [contradiction|reflexivity]. Qed.

Lemma opr_redirect_relay {idna : IDNA} {hp : HttpProxy} R st req res code prh l a p :
  is_redirect_status code = true ->
  obj_get "location" prh = Some l -> l <> EmptyString ->
  R (href (rs_location st)) l = Some a -> parseURL a = Some p ->
  (is_followed_status code = false \/
   (incr_count (rs_redirect_count st) <=? rs_max_redirects st) = false) ->
  exists st', rs_location st' = rs_location st /\ rs_cors_max_age st' = rs_cors_max_age st /\
    let h := obj_set "location" (rs_proxy_base_url st ++ "/" ++ a) prh in
    on_proxy_response R st req res code prh =
    Relay (fst (relay_headers st' req h)) (snd (relay_headers st' req h))
          (if count_unset (rs_redirect_count st)
           then set_header "x-request-url" (href (rs_location st)) res else res).
Proof.
  intros Hr Hl Hne HR Hp Hc. unfold on_proxy_response. cbv zeta.
  rewrite Hr, Hl, (truthy_nonempty l Hne), HR. cbn beta iota.
  rewrite (parseURL_result_some _ _ Hp). cbn [option_map]. cbn beta iota.
  destruct (is_followed_status code) eqn:Hf.
  - destruct Hc as [Hc|Hc]; [discriminate Hc|].
    exists (with_count st (incr_count (rs_redirect_count st))).
    split; [reflexivity|]. split; [reflexivity|]. simpl rs_max_redirects. rewrite Hc.
    now destruct (relay_headers _ _ _).
  - exists st. split; [reflexivity|]. split; [reflexivity|].
    now destruct (relay_headers _ _ _).
Qed.

Lemma opr_follow {idna : IDNA} {hp : HttpProxy} R st req res code prh l a p :
  is_followed_status code = true ->
  obj_get "location" prh = Some l -> l <> EmptyString ->
  R (href (rs_location st)) l = Some a -> parseURL a = Some p ->
  (incr_count (rs_redirect_count st) <=? rs_max_redirects st) = true ->
  exists req', on_proxy_response R st req res code prh =
    Follow (with_location (with_count st (incr_count (rs_redirect_count st))) p) req'
      (set_header ("X-CORS-Redirect-" ++ Z_to_string (incr_count (rs_redirect_count st)))
                  (Z_to_string code ++ " " ++ a)
                  (if count_unset (rs_redirect_count st)
                   then set_header "x-request-url" (href (rs_location st)) res else res)).
Proof.
  intros Hf Hl Hne HR Hp Hc.
  assert (Hr : is_redirect_status code = true).
  { unfold is_followed_status, is_redirect_status in *.
    rewrite !Bool.orb_true_iff in *. tauto. }
  unfold on_proxy_response. cbv zeta.
  rewrite Hr, Hl, (truthy_nonempty l Hne), HR. cbn beta iota.
  rewrite (parseURL_result_some _ _ Hp). cbn [option_map]. cbn beta iota.
  rewrite Hf. simpl rs_max_redirects. rewrite Hc.
  eexists. reflexivity.
Qed.

(** C3: an upstream 307 or 308 whose Location is present, non-empty and
    resolves (with [url.resolve] against the current location) to a URL
    [parseURL] accepts is never re-issued, whatever the redirect count so
    far: the exchange makes this one upstream request and relays the
    response with its status and body, Location rewritten to
    [proxyBaseUrl + '/' + absoluteLocation]. *)
Theorem redirect_307_308_relayed {idna : IDNA} {hp : HttpProxy} R up fuel i st req res code raw b l a :
  up i = Answer code raw b -> (code = 307 \/ code = 308) ->
  obj_get "location" (node_headers raw) = Some l -> l <> EmptyString ->
  R (href (rs_location st)) l = Some a ->
  (exists p, parseURL a = Some p) ->
  exists r, exchange R up (S fuel) i st req res = Some (r, [proxy_request st req]) /\
    status r = code /\ body r = b /\
    get_header "location" (res_headers r) = Some (rs_proxy_base_url st ++ "/" ++ a).
Proof.
  intros Hup Hc Hl Hne HR [p Hp]. simpl. rewrite Hup.
  edestruct (opr_redirect_relay R st req res code (node_headers raw) l a p) as (st' & _ & _ & O);
    eauto; [destruct Hc as [-> | ->]; reflexivity|left; destruct Hc as [-> | ->]; reflexivity|].
  cbv zeta in O. rewrite O.
  assert (Hv : valid_status code = true) by (destruct Hc as [-> | ->]; reflexivity).
  unfold engine_relay. rewrite Hv.
  eexists. split; [reflexivity|]. simpl.
  split; [reflexivity|]. split; [reflexivity|].
  apply relay_location, node_headers_all_lower.
Qed.

Lemma redirect_307_308_relayed_witness :
  exists r, exchange (fun _ l => Some l)
    (fun _ => Answer 307 [("Location", "https://b.example/moved")] "see there") 3 0
    {| rs_get_proxy_for_url := fun _ => EmptyString; rs_max_redirects := 5;
       rs_cors_max_age := 0; rs_location := sample_url "http://a.example/";
       rs_proxy_base_url := "http://proxy.example"; rs_redirect_count := Some 4 |}
    (mk_request "POST" "/http://a.example/" [] false) [] =
    Some (r, [proxy_request
               {| rs_get_proxy_for_url := fun _ => EmptyString; rs_max_redirects := 5;
                  rs_cors_max_age := 0; rs_location := sample_url "http://a.example/";
                  rs_proxy_base_url := "http://proxy.example"; rs_redirect_count := Some 4 |}
               (mk_request "POST" "/http://a.example/" [] false)]) /\
    status r = 307 /\ body r = "see there" /\
    get_header "location" (res_headers r) =
      Some ("http://proxy.example" ++ "/" ++ "https://b.example/moved").
Proof.
  apply (redirect_307_308_relayed (fun _ l => Some l)
           (fun _ => Answer 307 [("Location", "https://b.example/moved")] "see there") 2 0
           {| rs_get_proxy_for_url := fun _ => EmptyString; rs_max_redirects := 5;
              rs_cors_max_age := 0; rs_location := sample_url "http://a.example/";
              rs_proxy_base_url := "http://proxy.example"; rs_redirect_count := Some 4 |}
           (mk_request "POST" "/http://a.example/" [] false) [] 307
           [("Location", "https://b.example/moved")] "see there" "https://b.example/moved"
           "https://b.example/moved").
  - reflexivity.
  - left; reflexivity.
  - vm_compute; reflexivity.
  - discriminate.
  - reflexivity.
  - eexists. vm_compute. reflexivity.
Defined.

Lemma incr_count_succ k : incr_count (Some (Z.of_nat (S k))) = Z.of_nat (S (S k)).
Proof. unfold incr_count. destruct (Z.eqb_spec (Z.of_nat (S k) + 1) 0); lia. Qed.

Section RedirectChain.

Context {idna : IDNA} {hp : HttpProxy}.

Variables (R : string -> string -> option string) (up : nat -> Upstream) (N : nat)
  (raw : nat -> list (string * string)) (bod l a : nat -> string) (loc0 : Url) (p : nat -> Url)
  (rawN : list (string * string)) (bN : string).

(** The first [N] upstream answers are 302 redirects whose Location [l k],
    absolute or relative, resolves against the URL of the request it
    answers ([loc0] first, then the previous target) to [a k], which
    [parseURL] accepts as [p k]; the next answer is a 200. *)
Hypothesis Hup : forall k, (k < N)%nat -> up k = Answer 302 (raw k) (bod k).
Hypothesis HupN : up N = Answer 200 rawN bN.
Hypothesis Hloc : forall k, (k < N)%nat ->
  obj_get "location" (node_headers (raw k)) = Some (l k) /\ l k <> EmptyString /\
  R (href (chain_location loc0 p k)) (l k) = Some (a k) /\ parseURL (a k) = Some (p k).

Lemma chain_gen mx base : forall d k fuel st req res,
  (k + d)%nat = Nat.min N (Z.to_nat mx) -> (d < fuel)%nat ->
  incr_count (rs_redirect_count st) = Z.of_nat (S k) ->
  rs_max_redirects st = mx -> rs_proxy_base_url st = base ->
  rs_location st = chain_location loc0 p k ->
  (forall j, (1 <= j <= k)%nat ->
     get_header ("X-CORS-Redirect-" ++ Z_to_string (Z.of_nat j)) res <> None) ->
  exists r obs, exchange R up fuel k st req res = Some (r, obs) /\ List.length obs = S d /\
    (forall j, (1 <= j <= k + d)%nat ->
       get_header ("X-CORS-Redirect-" ++ Z_to_string (Z.of_nat j)) (res_headers r) <> None) /\
    ((N <= Z.to_nat mx)%nat -> status r = 200 /\ body r = bN) /\
    ((Z.to_nat mx < N)%nat -> status r = 302 /\ body r = bod (Z.to_nat mx) /\
       get_header "location" (res_headers r) = Some (base ++ "/" ++ a (Z.to_nat mx))).
Proof.
  induction d as [|d IH]; intros k fuel st req res Hkd Hf Hc Hm Hb Hs Hj;
    (destruct fuel as [|fuel]; [lia|]); cbn [exchange].
  - destruct (Nat.le_gt_cases N (Z.to_nat mx)) as [HN|HN].
    + assert (k = N) as -> by lia. rewrite HupN.
      rewrite opr_not_redirect by reflexivity.
      assert (Hv : valid_status 200 = true) by reflexivity.
      unfold engine_relay. rewrite Hv.
      eexists _, _. split; [reflexivity|]. split; [reflexivity|].
      split; [|split; [intros _; split; reflexivity|lia]].
      intros j Hj'. simpl res_headers. rewrite write_headers_fold.
      apply write_keeps_some, pre_res_keep, Hj. lia.
    + assert (k = Z.to_nat mx) as -> by lia.
      destruct (Hloc (Z.to_nat mx) HN) as (Hl & Hne & HR & Hp).
      rewrite (Hup _ HN).
      edestruct (opr_redirect_relay R st req res 302 (node_headers (raw (Z.to_nat mx)))
                   (l (Z.to_nat mx)) (a (Z.to_nat mx)) (p (Z.to_nat mx))) as (st' & _ & _ & O);
        [reflexivity|exact Hl|exact Hne|rewrite Hs; exact HR|exact Hp|
         right; rewrite Hc, Hm; apply Z.leb_gt; lia|].
      cbv zeta in O. rewrite O.
      assert (Hv : valid_status 302 = true) by reflexivity.
      unfold engine_relay. rewrite Hv.
      eexists _, _. split; [reflexivity|]. split; [reflexivity|].
      split; [|split; [lia|intros _; split; [reflexivity|split; [reflexivity|]]]].
      * intros j Hj'. simpl res_headers. rewrite write_headers_fold.
        apply write_keeps_some, pre_res_keep, Hj. lia.
      * simpl res_headers. rewrite relay_location by apply node_headers_all_lower.
        now rewrite Hb.
  - assert (HkN : (k < N)%nat) by lia.
    destruct (Hloc k HkN) as (Hl & Hne & HR & Hp).
    rewrite (Hup _ HkN).
    edestruct (opr_follow R st req res 302 (node_headers (raw k)) (l k) (a k) (p k)) as (req' & O);
      [reflexivity|exact Hl|exact Hne|rewrite Hs; exact HR|exact Hp|
       rewrite Hc, Hm; apply Z.leb_le; lia|].
    rewrite O, Hc.
    match goal with |- context [exchange R up fuel (S k) ?st' ?rq ?rs] =>
      destruct (IH (S k) fuel st' rq rs) as (r & obs & E & Hlen & Hjs & H1 & H2);
      [lia|lia| | | | | |]
    end.
    + simpl rs_redirect_count. apply incr_count_succ.
    + exact Hm.
    + exact Hb.
    + reflexivity.
    + intros j Hj'. destruct (Nat.eq_dec j (S k)) as [->|Hne'].
      * rewrite get_header_set_same by reflexivity. discriminate.
      * apply get_header_set_keep, pre_res_keep, Hj. lia.
    + rewrite E. eexists _, _. split; [reflexivity|].
      split; [simpl; now rewrite Hlen|].
      split; [intros j Hj'; apply Hjs; lia|]. split; assumption.
Qed.

(** C2 (amended): let the upstream answer 302 exactly [N] times, each time
    with a Location that [url.resolve] turns, against the URL of the request
    it answers, into a URL [parseURL] accepts, then 200, and let [M] be
    [maxRedirects] (a negative value acts as 0).  If [N <= M], the client
    gets exactly one response, the final 200, carrying [X-CORS-Redirect-1]
    to [X-CORS-Redirect-N], after [N + 1] upstream requests.  If [N > M], the
    client gets the [(M+1)]-th redirect response, the first one past the
    cap, after [M + 1] upstream requests: status 302, its body, Location
    rewritten to [proxyBaseUrl + '/' + absoluteLocation], and
    [X-CORS-Redirect-1] to [X-CORS-Redirect-M]. *)
Theorem redirect_chain st req res :
  rs_redirect_count st = None -> rs_location st = loc0 ->
  exists r obs,
    exchange R up (S (Z.to_nat (rs_max_redirects st))) 0 st req res = Some (r, obs) /\
    ((N <= Z.to_nat (rs_max_redirects st))%nat ->
       status r = 200 /\ body r = bN /\ List.length obs = S N /\
       forall j, (1 <= j <= N)%nat ->
         get_header ("X-CORS-Redirect-" ++ Z_to_string (Z.of_nat j)) (res_headers r) <> None) /\
    ((Z.to_nat (rs_max_redirects st) < N)%nat ->
       status r = 302 /\ body r = bod (Z.to_nat (rs_max_redirects st)) /\
       List.length obs = S (Z.to_nat (rs_max_redirects st)) /\
       get_header "location" (res_headers r) =
         Some (rs_proxy_base_url st ++ "/" ++ a (Z.to_nat (rs_max_redirects st))) /\
       forall j, (1 <= j <= Z.to_nat (rs_max_redirects st))%nat ->
         get_header ("X-CORS-Redirect-" ++ Z_to_string (Z.of_nat j)) (res_headers r) <> None).
Proof.
  intros Hc0 Hl0.
  destruct (chain_gen (rs_max_redirects st) (rs_proxy_base_url st)
              (Nat.min N (Z.to_nat (rs_max_redirects st))) 0
              (S (Z.to_nat (rs_max_redirects st))) st req res)
    as (r & obs & E & Hlen & Hjs & H1 & H2); auto; [lia|now rewrite Hc0|intros j Hj; lia|].
  exists r, obs. split; [exact E|]. split.
  - intros HN. destruct (H1 HN). repeat split; auto; [rewrite Hlen; f_equal; lia|].
    intros j Hj. apply Hjs. lia.
  - intros HN. destruct (H2 HN) as (? & ? & ?). repeat split; auto; [rewrite Hlen; f_equal; lia|].
    intros j Hj. apply Hjs. lia.
Qed.

End RedirectChain.

Lemma redirect_chain_witness :
  exists r obs,
    exchange sample_resolve (rel_upstream 2) 2 0 (sample_state 1)
      (mk_request "GET" "/http://a.example/" [] false) [] = Some (r, obs) /\
    status r = 302 /\ body r = hop_body 1 /\
    get_header "location" (res_headers r) = Some ("http://proxy.example" ++ "/" ++ hop_url 1).
Proof.
  destruct (redirect_chain sample_resolve (rel_upstream 2) 2 rel_headers hop_body
              (fun i => "/" ++ Z_to_string (Z.of_nat (S i))) hop_url
              (sample_url "http://a.example/")
              (fun i => match parseURL (hop_url i) with Some u => u | None => empty_url end)
              [] "done") with (st := sample_state 1)
              (req := mk_request "GET" "/http://a.example/" [] false) (res := @nil (string * (string * string)))
    as (r & obs & E & _ & H2).
  - intros k Hk. unfold rel_upstream. now rewrite (proj2 (Nat.ltb_lt k 2) Hk).
  - reflexivity.
  - intros k Hk. destruct k as [|[|k]]; [| |lia];
      (split; [vm_compute; reflexivity|split; [discriminate|split; vm_compute; reflexivity]]).
  - reflexivity.
  - reflexivity.
  - destruct (H2 ltac:(vm_compute; lia)) as (S1 & B1 & _ & L1 & _).
    exists r, obs. split; [exact E|]. split; [exact S1|]. split; [exact B1|exact L1].
Defined.

(** C2, counterexample to the original text: with [maxRedirects = 0] and two
    302s, the client gets the first redirect response (to [hop_url 0]), not
    the last one (to [hop_url 1]). *)
Lemma redirect_chain_counterexample :
  match exchange (fun _ l => Some l) (chain_upstream 2) 1 0 (sample_state 0)
          (mk_request "GET" "/http://a.example/" [] false) [] with
  | Some (r, obs) =>
      body r = hop_body 0 /\ body r <> hop_body 1 /\
      get_header "location" (res_headers r) = Some ("http://proxy.example/" ++ hop_url 0) /\
      get_header "location" (res_headers r) <> Some ("http://proxy.example/" ++ hop_url 1) /\
      List.length obs = 1%nat
  | None => False
  end.
Proof. vm_compute. repeat split; try reflexivity; intros H; discriminate H. Defined.

(** * What [withCORS] does to the request *)


Lemma with_cors_req_lower ma h req n :
  lower n = n ->
  obj_get n (req_headers (snd (with_cors ma h req))) = obj_get n (req_headers req).
Proof.
  intros Hn. apply with_cors_req; intros ->; vm_compute in Hn; discriminate Hn.
Qed.

Lemma existsb_lower_ext (A B : headers) (l : list string) :
  (forall n, lower n = n -> obj_get n A = obj_get n B) ->
  existsb (fun n => match obj_get n A with Some _ => true | None => false end) (map lower l) =
  existsb (fun n => match obj_get n B with Some _ => true | None => false end) (map lower l).
Proof.
  intros H. induction l as [|x l IH]; simpl; [reflexivity|].
  rewrite H by apply lower_idem. now rewrite IH.
Qed.

Lemma has_required_headers_cors rh ma h req :
  has_required_headers (normalize_require_header rh) (req_headers (snd (with_cors ma h req))) =
  has_required_headers (normalize_require_header rh) (req_headers req).
Proof.
  destruct rh as [|s|l]; simpl; [reflexivity| |].
  - destruct (String.eqb s EmptyString); simpl; [reflexivity|].
    rewrite with_cors_req_lower by apply lower_idem. reflexivity.
  - destruct l as [|x l]; [reflexivity|].
    apply (existsb_lower_ext _ _ (x :: l)). intros n Hn. now apply with_cors_req_lower.
Qed.

(** * The origin checks of the handler *)

Section OriginChecks.

Context {idna : IDNA} {hp : HttpProxy}.

Variables (V : string -> bool) (F : string -> option string) (cfg : Config) (req0 : Request)
  (loc : Url).

(** The request gets past every check before the origin checks. *)
Hypothesis Hhook : handle_initial_request cfg = None.
Hypothesis Hopt : method req0 <> "OPTIONS".
Hypothesis Hloc : parseURL (drop 1 (url req0)) = Some loc.
Hypothesis Hhost : host loc <> "iscorsneeded".
Hypothesis Hport : port_too_large (port loc) = false.
Hypothesis Hvalid : explicit_http_url (url req0) = true \/ V (hostname loc) = true.
Hypothesis Hreq :
  has_required_headers (normalize_require_header (require_header cfg)) (req_headers req0) = true.

Lemma origin_stage :
  let origin := match obj_get "origin" (req_headers req0) with Some o => o | None => EmptyString end in
  let ch := fst (with_cors (cors_max_age cfg) [] req0) in
  (existsb (String.eqb origin) (origin_blacklist cfg) = true ->
   handler V F cfg req0 =
   Respond (reply 403 "Forbidden" ch
              ("The origin " ++ dq ++ origin ++ dq ++ " was blacklisted by the operator of this proxy."))) /\
  (existsb (String.eqb origin) (origin_blacklist cfg) = false ->
   origin_whitelist cfg <> [] -> existsb (String.eqb origin) (origin_whitelist cfg) = false ->
   handler V F cfg req0 =
   Respond (reply 403 "Forbidden" ch
              ("The origin " ++ dq ++ origin ++ dq ++ " was not whitelisted by the operator of this proxy."))) /\
  (existsb (String.eqb origin) (origin_blacklist cfg) = false ->
   (origin_whitelist cfg = [] \/ existsb (String.eqb origin) (origin_whitelist cfg) = true) ->
   forall r, handler V F cfg req0 = Respond r -> status r <> 403).
Proof.
  cbv zeta. unfold handler. rewrite Hhook.
  pose proof (with_cors_req (cors_max_age cfg) [] req0) as (Hm & Hu & Hg).
  pose proof (has_required_headers_cors (require_header cfg) (cors_max_age cfg) [] req0) as Hr.
  destruct (with_cors (cors_max_age cfg) [] req0) as [ch req] eqn:W. cbn [fst snd] in Hm, Hu, Hg, Hr |- *. cbv zeta.
  rewrite Hm, Hu, (parseURL_result_some _ _ Hloc), Hr, Hreq, (Hg "origin") by discriminate.
  rewrite (proj2 (String.eqb_neq _ _) Hopt), (proj2 (String.eqb_neq _ _) Hhost), Hport.
  replace (negb (explicit_http_url (url req0)) && negb (V (hostname loc)))%bool with false
    by (destruct Hvalid as [-> | ->]; [reflexivity|symmetry; apply andb_false_r]).
  simpl negb. cbv iota.
  set (origin := match obj_get "origin" (req_headers req0) with Some o => o | None => EmptyString end).
  split; [|split].
  - intros Hb. now rewrite Hb.
  - intros Hb Hw Hw'. rewrite Hb, Hw'. destruct (origin_whitelist cfg); [contradiction|reflexivity].
  - intros Hb Hw r H. rewrite Hb in H.
    replace (match origin_whitelist cfg with [] => false | _ :: _ => true end &&
             negb (existsb (String.eqb origin) (origin_whitelist cfg)))%bool with false in H
      by (destruct Hw as [-> | ->]; [reflexivity|symmetry; apply andb_false_r]).
    repeat match type of H with
    | context [if ?b then _ else _] => destruct b
    end; try discriminate H; injection H as <-; simpl; discriminate.
Qed.

(** C6 (amended): for a request that gets past the checks before the origin
    checks (not a preflight, no [handleInitialRequest] hook, a target URL
    [parseURL] accepts, not the [iscorsneeded] probe, a port up to 65535, an
    explicit http(s) URL or a valid host name, the required header present),
    an Origin listed in both the blacklist and the whitelist is answered 403
    Forbidden with the blacklist body: the blacklist check runs first. *)
Theorem origin_blacklist_first o :
  obj_get "origin" (req_headers req0) = Some o ->
  In o (origin_blacklist cfg) -> In o (origin_whitelist cfg) ->
  handler V F cfg req0 =
  Respond (reply 403 "Forbidden" (fst (with_cors (cors_max_age cfg) [] req0))
             ("The origin " ++ dq ++ o ++ dq ++ " was blacklisted by the operator of this proxy.")).
Proof.
  intros Ho Hb _. destruct origin_stage as (H & _ & _). rewrite Ho in H. apply H.
  apply existsb_exists. exists o. split; [exact Hb|apply String.eqb_refl].
Qed.

(** C10 (amended): for a request without an Origin header that gets past the
    checks before the origin checks (as for C6), the origin is the empty
    string: the blacklist answers 403 exactly when it lists the empty
    string; otherwise a non-empty whitelist without the empty string answers
    403; otherwise the response, if the handler writes one, is not a 403. *)
Theorem missing_origin_is_empty :
  obj_get "origin" (req_headers req0) = None ->
  let ch := fst (with_cors (cors_max_age cfg) [] req0) in
  (In EmptyString (origin_blacklist cfg) ->
   handler V F cfg req0 =
   Respond (reply 403 "Forbidden" ch
              ("The origin " ++ dq ++ dq ++ " was blacklisted by the operator of this proxy."))) /\
  (~ In EmptyString (origin_blacklist cfg) ->
   origin_whitelist cfg <> [] -> ~ In EmptyString (origin_whitelist cfg) ->
   handler V F cfg req0 =
   Respond (reply 403 "Forbidden" ch
              ("The origin " ++ dq ++ dq ++ " was not whitelisted by the operator of this proxy."))) /\
  (~ In EmptyString (origin_blacklist cfg) ->
   (origin_whitelist cfg = [] \/ In EmptyString (origin_whitelist cfg)) ->
   forall r, handler V F cfg req0 = Respond r -> status r <> 403).
Proof.
  intros Ho ch. destruct origin_stage as (H1 & H2 & H3). rewrite Ho in H1, H2, H3.
  assert (E : forall l, existsb (String.eqb EmptyString) l = true <-> In EmptyString l).
  { intros l. rewrite existsb_exists. split.
    - intros (x & Hx & Ex). apply String.eqb_eq in Ex. now subst x.
    - intros Hin. exists EmptyString. split; [exact Hin|apply String.eqb_refl]. }
  assert (E' : forall l, existsb (String.eqb EmptyString) l = false <-> ~ In EmptyString l).
  { intros l. rewrite <- E. destruct (existsb _ l); split; congruence. }
  split; [|split].
  - intros Hb. apply H1, E, Hb.
  - intros Hb Hw Hw'. apply H2; [apply E', Hb|exact Hw|apply E', Hw'].
  - intros Hb Hw. apply H3; [apply E', Hb|destruct Hw as [Hw|Hw]; [left; exact Hw|right; apply E, Hw]].
Qed.

End OriginChecks.

Ltac close_by_evaluation :=
  first [ reflexivity
        | vm_compute; reflexivity
        | intros ?E; vm_compute in E; discriminate E
        | left; reflexivity
        | simpl; tauto ].

Lemma origin_blacklist_first_witness :
  handler (fun _ => true) (fun _ => None)
    (origin_config ["https://o.example"] ["https://o.example"])
    (mk_request "GET" "/http://a.example/" [("Origin", "https://o.example")] false) =
  Respond (reply 403 "Forbidden"
    (fst (with_cors 0 [] (mk_request "GET" "/http://a.example/" [("Origin", "https://o.example")] false)))
    ("The origin " ++ dq ++ "https://o.example" ++ dq ++ " was blacklisted by the operator of this proxy.")).
Proof.
  apply (origin_blacklist_first (fun _ => true) (fun _ => None)
           (origin_config ["https://o.example"] ["https://o.example"])
           (mk_request "GET" "/http://a.example/" [("Origin", "https://o.example")] false)
           sample_target); close_by_evaluation.
Defined.

(** C6, counterexample to the original text: a preflight from an origin in
    both lists is answered 200, before any origin check. *)
Lemma origin_blacklist_first_counterexample :
  match handler (fun _ => true) (fun _ => None)
          (origin_config ["https://o.example"] ["https://o.example"])
          (mk_request "OPTIONS" "/http://a.example/" [("Origin", "https://o.example")] false) with
  | Respond r => status r = 200
  | ToProxy _ _ _ => False
  | NoReply => False
  end.
Proof. vm_compute. reflexivity. Defined.

Lemma missing_origin_is_empty_witness :
  let ch := fst (with_cors 0 [] (mk_request "GET" "/http://a.example/" [] false)) in
  (In EmptyString (origin_blacklist (origin_config [] ["https://o.example"])) ->
   handler (fun _ => true) (fun _ => None) (origin_config [] ["https://o.example"])
     (mk_request "GET" "/http://a.example/" [] false) =
   Respond (reply 403 "Forbidden" ch
              ("The origin " ++ dq ++ dq ++ " was blacklisted by the operator of this proxy."))) /\
  (~ In EmptyString (origin_blacklist (origin_config [] ["https://o.example"])) ->
   origin_whitelist (origin_config [] ["https://o.example"]) <> [] ->
   ~ In EmptyString (origin_whitelist (origin_config [] ["https://o.example"])) ->
   handler (fun _ => true) (fun _ => None) (origin_config [] ["https://o.example"])
     (mk_request "GET" "/http://a.example/" [] false) =
   Respond (reply 403 "Forbidden" ch
              ("The origin " ++ dq ++ dq ++ " was not whitelisted by the operator of this proxy."))) /\
  (~ In EmptyString (origin_blacklist (origin_config [] ["https://o.example"])) ->
   (origin_whitelist (origin_config [] ["https://o.example"]) = [] \/
    In EmptyString (origin_whitelist (origin_config [] ["https://o.example"]))) ->
   forall r, handler (fun _ => true) (fun _ => None) (origin_config [] ["https://o.example"])
               (mk_request "GET" "/http://a.example/" [] false) = Respond r -> status r <> 403).
Proof.
  apply (missing_origin_is_empty (fun _ => true) (fun _ => None)
           (origin_config [] ["https://o.example"])
           (mk_request "GET" "/http://a.example/" [] false) sample_target); close_by_evaluation.
Defined.

(** C10, counterexample to the original text: a preflight without an Origin
    header is answered 200 although the whitelist is non-empty and lacks the
    empty string. *)
Lemma missing_origin_is_empty_counterexample :
  match handler (fun _ => true) (fun _ => None) (origin_config [] ["https://o.example"])
          (mk_request "OPTIONS" "/http://a.example/" [] false) with
  | Respond r => status r = 200
  | ToProxy _ _ _ => False
  | NoReply => False
  end.
Proof. vm_compute. reflexivity. Defined.

(** C7 (amended): when [withCORS] is given a header object without an
    [Access-Control-Expose-Headers] key, it sets that key last, and its value
    is the comma-joined list of every other key of the resulting object, in
    insertion order: the headers handed to [withCORS] and the CORS headers it
    adds before. *)
Theorem with_cors_expose ma h req :
  ~ In "Access-Control-Expose-Headers" (obj_keys h) ->
  exists ks, obj_keys (fst (with_cors ma h req)) = (ks ++ ["Access-Control-Expose-Headers"])%list /\
             obj_get "Access-Control-Expose-Headers" (fst (with_cors ma h req)) = Some (join "," ks).
Proof.
  intros Hn. unfold with_cors.
  repeat (match goal with
          | |- context [if ?b then _ else _] => destruct b
          | |- context [match obj_get ?k ?o with _ => _ end] => destruct (obj_get k o)
          end; simpl);
  (eexists; split; [apply keys_set_fresh|apply obj_get_set_eq]);
  intros Hin; repeat (apply keys_set_in in Hin as [Hin|Hin]; [discriminate Hin|]); contradiction.
Qed.

Lemma with_cors_expose_witness :
  exists ks, obj_keys (fst (with_cors 0 [("x-a", "1")] (mk_request "GET" "/http://a.example/" [] false))) =
             (ks ++ ["Access-Control-Expose-Headers"])%list /\
             obj_get "Access-Control-Expose-Headers"
               (fst (with_cors 0 [("x-a", "1")] (mk_request "GET" "/http://a.example/" [] false))) =
             Some (join "," ks).
Proof.
  apply with_cors_expose. intros [E|[]]. discriminate E.
Defined.

(** C7, counterexample to the original text: the [iscorsneeded] reply has a
    [Content-Type] header and no [Access-Control-Expose-Headers]; the
    "Missing slash" reply exposes [Access-Control-Allow-Origin] only, not
    the expose header itself. *)
Lemma expose_headers_counterexample :
  get_header "Content-Type" (res_headers iscorsneeded_reply) = Some "text/plain" /\
  get_header "Access-Control-Expose-Headers" (res_headers iscorsneeded_reply) = None /\
  match handler (fun _ => true) (fun _ => None) default_config
          (mk_request "GET" "/http:/a.example/" [] false) with
  | Respond r =>
      status r = 400 /\
      map fst (res_headers r) = ["access-control-allow-origin"; "access-control-expose-headers"] /\
      get_header "Access-Control-Expose-Headers" (res_headers r) = Some "Access-Control-Allow-Origin"
  | ToProxy _ _ _ => False
  | NoReply => False
  end.
Proof. vm_compute. repeat split; reflexivity. Defined.

Lemma obj_get_not_lower k h : all_lower h -> lower k <> k -> obj_get k h = None.
Proof.
  intros Hh Hk. destruct (obj_get k h) eqn:E; [|reflexivity].
  exfalso. apply Hk, Hh. unfold obj_keys.
  induction h as [|[k1 v1] h IH]; simpl in E |- *; [discriminate|].
  destruct (String.eqb_spec k1 k); [left; auto|right].
  apply IH; auto. intros k' Hk'. apply Hh. simpl; auto.
Qed.

(** C8: Node lower-cases incoming header names, so the mixed-case lookups of
    [withCORS] never find [Access-Control-Request-Method] or
    [Access-Control-Request-Headers]: the handler's CORS headers never
    include [Access-Control-Allow-Methods] or [Access-Control-Allow-Headers],
    and the request headers are left as received. *)
Theorem with_cors_never_echoes ma m u raw enc :
  ~ In "Access-Control-Allow-Methods" (obj_keys (fst (with_cors ma [] (mk_request m u raw enc)))) /\
  ~ In "Access-Control-Allow-Headers" (obj_keys (fst (with_cors ma [] (mk_request m u raw enc)))) /\
  req_headers (snd (with_cors ma [] (mk_request m u raw enc))) = node_headers raw.
Proof.
  unfold with_cors. cbn [req_headers mk_request].
  rewrite !obj_get_not_lower by (apply node_headers_all_lower || (intros E; vm_compute in E; discriminate E)).
  destruct (_ && _)%bool; simpl; repeat split; intros Hin;
    repeat destruct Hin as [Hin|Hin]; try discriminate Hin; exact Hin.
Qed.

(** * Further properties of the code *)

(** ** The scheme [parseURL] yields *)

Lemma proto_char_safe c :
  is_proto_char c = true ->
  is_ws c = false /\ (Ascii.eqb c "?" || Ascii.eqb c "#" || Ascii.eqb c backslash)%bool = false.
Proof. destruct c as [[] [] [] [] [] [] [] []]; vm_compute; intros H; try discriminate H; auto. Qed.

Lemma proto_char_lower c : is_proto_char (lower_ascii c) = is_proto_char c.
Proof. destruct c as [[] [] [] [] [] [] [] []]; reflexivity. Qed.

Lemma lower_colon c : lower_ascii c = ":"%char -> c = ":"%char.
Proof. destruct c as [[] [] [] [] [] [] [] []]; vm_compute; intros H; first [reflexivity|discriminate H]. Qed.

Lemma string_app_assoc (a b c : string) : (a ++ b ++ c)%string = ((a ++ b) ++ c)%string.
Proof. induction a as [|x a IH]; simpl; [reflexivity|now rewrite IH]. Qed.

Lemma split_ci_app p s m r : split_ci p s = Some (m, r) -> s = (m ++ r)%string /\ lower m = p.
Proof.
  revert s m r. induction p as [|a p IH]; intros s m r H; simpl in H.
  - injection H as <- <-. split; reflexivity.
  - destruct s as [|c s]; [discriminate|].
    destruct (Ascii.eqb_spec (lower_ascii c) a) as [E|E]; [|discriminate].
    destruct (split_ci p s) as [[m' r']|] eqn:S; [|discriminate].
    injection H as <- <-. destruct (IH _ _ _ S) as [-> <-]. simpl. now rewrite E.
Qed.

Lemma proto_chars_safe a :
  forallb is_proto_char (list_ascii_of_string a) = true ->
  forallb (fun c => negb (is_ws c)) (list_ascii_of_string (a ++ ":")) = true /\
  forallb (fun c => negb (Ascii.eqb c "?" || Ascii.eqb c "#" || Ascii.eqb c backslash))
          (list_ascii_of_string (a ++ ":")) = true.
Proof.
  induction a as [|c a IH]; simpl; [split; reflexivity|].
  intros H. apply andb_true_iff in H as [Hc Ha].
  destruct (proto_char_safe c Hc) as [-> ->]. destruct (IH Ha) as [-> ->]. split; reflexivity.
Qed.

Lemma break_at_proto a y :
  forallb is_proto_char (list_ascii_of_string a) = true ->
  break_at (fun c => negb (is_proto_char c)) (a ++ String ":" y) = (a, String ":" y).
Proof.
  induction a as [|c a IH]; simpl; [reflexivity|].
  intros H. apply andb_true_iff in H as [Hc Ha]. rewrite Hc, (IH Ha). reflexivity.
Qed.

(** [url.parse] reports the lower-cased scheme of a string that starts with
    a scheme token followed by a colon. *)
Lemma url_parse_protocol_gen {idna : IDNA} {hp : HttpProxy} a x u :
  a <> EmptyString -> forallb is_proto_char (list_ascii_of_string a) = true ->
  url_parse (a ++ ":" ++ x) = Some u -> protocol u = lower (a ++ ":").
Proof.
  intros Hne Ha Hu. destruct (proto_chars_safe a Ha) as [Hw Hb].
  unfold url_parse, trim in Hu.
  assert (Hl : ltrim (a ++ ":" ++ x) = (a ++ ":" ++ x)%string).
  { destruct a as [|c a']; [contradiction|]. simpl in Ha |- *.
    apply andb_true_iff in Ha as [Hc _]. now rewrite (proj1 (proto_char_safe c Hc)). }
  rewrite Hl, string_app_assoc, rtrim_prefix in Hu by exact Hw.
  rewrite fix_backslashes_prefix in Hu by exact Hb.
  assert (Hp : split_protocol ((a ++ ":") ++ fix_backslashes (rtrim x)) =
               Some ((a ++ ":")%string, fix_backslashes (rtrim x))).
  { unfold split_protocol. rewrite <- string_app_assoc.
    change (":" ++ fix_backslashes (rtrim x))%string with (String ":" (fix_backslashes (rtrim x))).
    rewrite break_at_proto by exact Ha.
    destruct a; [contradiction|reflexivity]. }
  rewrite Hp in Hu. split_lets_in Hu; injection Hu as <-; apply url_finish_protocol.
Qed.

Lemma lower_scheme sch pat :
  lower sch = pat -> (pat = "http:" \/ pat = "https:") ->
  exists a, sch = (a ++ ":")%string /\ a <> EmptyString /\
            forallb is_proto_char (list_ascii_of_string a) = true.
Proof.
  intros H Hp.
  destruct sch as [|c1 [|c2 [|c3 [|c4 [|c5 rest]]]]];
    destruct Hp as [-> | ->]; simpl in H; try discriminate H;
    injection H as E1 E2 E3 E4 E5 E6.
  - exists (String c1 (String c2 (String c3 (String c4 EmptyString)))).
    rewrite (lower_colon c5 E5). destruct rest; [|discriminate E6].
    split; [reflexivity|split; [discriminate|]]. simpl.
    rewrite <- (proto_char_lower c1), <- (proto_char_lower c2), <- (proto_char_lower c3),
      <- (proto_char_lower c4), E1, E2, E3, E4. reflexivity.
  - destruct rest as [|c6 rest]; [discriminate E6|]. injection E6 as E6 E7.
    exists (String c1 (String c2 (String c3 (String c4 (String c5 EmptyString))))).
    rewrite (lower_colon c6 E6). destruct rest; [|discriminate E7].
    split; [reflexivity|split; [discriminate|]]. simpl.
    rewrite <- (proto_char_lower c1), <- (proto_char_lower c2), <- (proto_char_lower c3),
      <- (proto_char_lower c4), <- (proto_char_lower c5), E1, E2, E3, E4, E5. reflexivity.
Qed.

Lemma first_some_in {A B} (f : A -> option B) l y :
  first_some f l = Some y -> exists x, In x l /\ f x = Some y.
Proof.
  induction l as [|x l IH]; simpl; [discriminate|].
  destruct (f x) eqn:E; [intros H; injection H as <-; eauto|].
  intros H. destruct (IH H) as (x' & Hin & Hx). eauto.
Qed.

Lemma url_regex_protocol s m sch :
  url_regex s = Some m -> m_protocol m = Some sch ->
  exists pat r, (pat = "http:" \/ pat = "https:") /\ split_ci pat s = Some (sch, r).
Proof.
  unfold url_regex. intros H Hp. apply first_some_in in H as ([o r] & Hin & Hf).
  destruct (match_body r) as [[[hn port] path]|]; [|discriminate].
  injection Hf as <-. simpl in Hp. subst o.
  unfold prefix_candidates in Hin. apply in_app_iff in Hin as [Hin|Hin].
  - apply in_flat_map in Hin as ([sch' r0] & Hin & Hx).
    destruct (starts_with "//" r0); [|destruct Hx].
    destruct Hx as [Hx|[]]. injection Hx as -> _.
    apply in_app_iff in Hin as [Hin|Hin].
    + destruct (split_ci "https:" s) eqn:E; [|destruct Hin].
      destruct Hin as [->|[]]. exists "https:", r0. auto.
    + destruct (split_ci "http:" s) eqn:E; [|destruct Hin].
      destruct Hin as [->|[]]. exists "http:", r0. auto.
  - apply in_app_iff in Hin as [Hin|Hin].
    + destruct (starts_with "//" s); [|destruct Hin]. destruct Hin as [Hx|[]]; discriminate Hx.
    + destruct Hin as [Hx|[]]; discriminate Hx.
Qed.

(** [parseURL] only ever yields an [http:] or an [https:] URL: an explicit
    scheme is one the pattern's [(https?:)] group accepts (in any letter
    case; [url.parse] lower-cases it), an inferred one is [http:] or
    [https:]. *)
Theorem parseURL_http_only {idna : IDNA} {hp : HttpProxy} s u :
  parseURL s = Some u -> protocol u = "http:" \/ protocol u = "https:".
Proof.
  intros H. unfold parseURL, parseURL_result in H.
  destruct (url_regex s) as [m|] eqn:Hr; [|discriminate]. cbv zeta in H.
  destruct (m_protocol m) as [sch|] eqn:Hp.
  - destruct (url_parse s) as [u0|] eqn:Hu; [|discriminate].
    destruct (String.eqb (hostname u0) EmptyString); [discriminate|].
    injection H as <-.
    destruct (url_regex_protocol s m sch Hr Hp) as (pat & r & Hpat & Hs).
    destruct (split_ci_app _ _ _ _ Hs) as [-> Hl].
    destruct (lower_scheme sch pat Hl Hpat) as (a & -> & Hne & Ha).
    rewrite <- string_app_assoc in Hu.
    rewrite (url_parse_protocol_gen _ _ _ Hne Ha Hu).
    rewrite Hl. destruct Hpat as [-> | ->]; auto.
  - destruct (http_scheme_prefix s); [discriminate|].
    destruct (url_parse _) as [u0|] eqn:Hu; [|discriminate].
    destruct (String.eqb (hostname u0) EmptyString); [discriminate|].
    injection H as <-.
    destruct (m_port m) as [p|]; [destruct (String.eqb p "443")|];
      eapply url_parse_protocol in Hu; auto; rewrite Hu; auto.
Qed.

Lemma parseURL_http_only_witness :
  match parseURL "HtTpS://Example.COM:8443/a?b" with
  | Some u => protocol u = "http:" \/ protocol u = "https:"
  | None => False
  end.
Proof.
  destruct (parseURL "HtTpS://Example.COM:8443/a?b") as [u|] eqn:E; [|vm_compute in E; discriminate E].
  exact (parseURL_http_only _ u E).
Defined.

(** ** Preflight requests *)

(** An [OPTIONS] request is answered by the handler itself, before the
    [handleInitialRequest] hook and every other check: 200, an empty body,
    [Access-Control-Allow-Origin: *], and [Access-Control-Max-Age] set to
    [corsMaxAge] exactly when [corsMaxAge] is non-zero. *)
Theorem preflight_reply {idna : IDNA} {hp : HttpProxy} V F cfg req0 :
  method req0 = "OPTIONS" ->
  exists r, handler V F cfg req0 = Respond r /\ status r = 200 /\ body r = EmptyString /\
    get_header "Access-Control-Allow-Origin" (res_headers r) = Some "*" /\
    (cors_max_age cfg <> 0 ->
     get_header "Access-Control-Max-Age" (res_headers r) = Some (Z_to_string (cors_max_age cfg))) /\
    (cors_max_age cfg = 0 -> get_header "Access-Control-Max-Age" (res_headers r) = None).
Proof.
  intros Hm. unfold handler.
  pose proof (with_cors_req (cors_max_age cfg) [] req0) as (Hm' & _ & _).
  destruct (with_cors (cors_max_age cfg) [] req0) as [ch req] eqn:W. cbn [fst snd] in Hm' |- *.
  cbv zeta. rewrite Hm', Hm. simpl String.eqb. cbv iota.
  eexists. split; [reflexivity|]. cbn [status body res_headers].
  split; [reflexivity|]. split; [reflexivity|].
  unfold with_cors in W. rewrite Hm in W.
  destruct (cors_max_age cfg =? 0) eqn:Ez; simpl in W;
  repeat match type of W with
  | context [match obj_get ?k ?o with _ => _ end] => destruct (obj_get k o)
  | context [if ?b then _ else _] => destruct b
  end; injection W as <- _;
  (split; [reflexivity|]); split; intros Hz;
    try (apply Z.eqb_eq in Ez; contradiction); try (rewrite Hz in Ez; discriminate Ez);
    reflexivity.
Qed.

Lemma preflight_reply_witness :
  exists r, handler (fun _ => true) (fun _ => None)
              {| handle_initial_request := Some (fun _ _ => Some iscorsneeded_reply);
                 get_proxy_for_url := fun _ => EmptyString; max_redirects := 5;
                 origin_blacklist := ["https://o.example"]; origin_whitelist := [];
                 check_rate_limit := None; redirect_same_origin := false;
                 require_header := RHString "x-key"; remove_headers := []; set_headers := [];
                 cors_max_age := 600; help_file := "help.txt" |}
              (mk_request "OPTIONS" "/http://a.example/" [("Origin", "https://o.example")] false) =
            Respond r /\ status r = 200 /\ body r = EmptyString /\
    get_header "Access-Control-Allow-Origin" (res_headers r) = Some "*" /\
    (600 <> 0 -> get_header "Access-Control-Max-Age" (res_headers r) = Some (Z_to_string 600)) /\
    (600 = 0 -> get_header "Access-Control-Max-Age" (res_headers r) = None).
Proof. apply preflight_reply. reflexivity. Defined.

(** ** Requests the handler hands to the proxy *)

Lemma handler_to_proxy_shape {idna : IDNA} {hp : HttpProxy} V F cfg req0 st req res :
  handler V F cfg req0 = ToProxy st req res ->
  let origin := match obj_get "origin" (req_headers req0) with Some o => o | None => EmptyString end in
  exists loc,
    String.eqb (method req0) "OPTIONS" = false /\
    parseURL (drop 1 (url req0)) = Some loc /\
    String.eqb (host loc) "iscorsneeded" = false /\
    port_too_large (port loc) = false /\
    (negb (explicit_http_url (url req0)) && negb (V (hostname loc)))%bool = false /\
    negb (has_required_headers (normalize_require_header (require_header cfg)) (req_headers req0)) = false /\
    existsb (String.eqb origin) (origin_blacklist cfg) = false /\
    (match origin_whitelist cfg with [] => false | _ => true end &&
     negb (existsb (String.eqb origin) (origin_whitelist cfg)))%bool = false /\
    negb (String.eqb (match check_rate_limit cfg with Some f => f origin | None => EmptyString end)
                     EmptyString) = false /\
    st = {| rs_get_proxy_for_url := get_proxy_for_url cfg; rs_max_redirects := max_redirects cfg;
            rs_cors_max_age := cors_max_age cfg; rs_location := loc;
            rs_proxy_base_url := proxy_base_url (snd (with_cors (cors_max_age cfg) [] req0));
            rs_redirect_count := None |} /\
    req = with_req_headers (snd (with_cors (cors_max_age cfg) [] req0))
            (fold_left (fun hs k => match obj_get k (set_headers cfg) with
                                    | Some v => obj_set k v hs
                                    | None => hs
                                    end) (obj_keys (set_headers cfg))
               (fold_left (fun hs k => obj_del k hs) (remove_headers cfg)
                  (req_headers (snd (with_cors (cors_max_age cfg) [] req0))))) /\
    res = [].
Proof.
  intros H origin. unfold handler in H.
  pose proof (with_cors_req (cors_max_age cfg) [] req0) as (Hm & Hu & Hg).
  pose proof (has_required_headers_cors (require_header cfg) (cors_max_age cfg) [] req0) as Hr.
  destruct (with_cors (cors_max_age cfg) [] req0) as [ch r1] eqn:W.
  cbn [fst snd] in Hm, Hu, Hg, Hr |- *. cbv zeta in H.
  rewrite Hm, Hu, Hr, (Hg "origin") in H by discriminate. fold origin in H.
  repeat match type of H with
  | context [if ?b then _ else _] => destruct b eqn:?
  | context [match ?x with Some _ => _ | None => _ end] => destruct x eqn:?
  end; try discriminate H;
  injection H as <- <- <-; eexists; repeat split;
    first [eassumption | eapply parseURL_of_result; eassumption].
Qed.

Lemma obj_get_some_in_keys {A} k (o : obj A) v : obj_get k o = Some v -> In k (obj_keys o).
Proof.
  induction o as [|[k1 v1] o IH]; simpl; [discriminate|].
  destruct (String.eqb_spec k1 k); auto.
Qed.

Section HeaderLoops.

Variable sh : headers.

Let set_step (hs : headers) (k : string) : headers :=
  match obj_get k sh with Some v => obj_set k v hs | None => hs end.

Lemma fold_del_notin (ks : list string) (h : headers) k :
  ~ In k ks -> obj_get k (fold_left (fun hs k' => obj_del k' hs) ks h) = obj_get k h.
Proof.
  revert h; induction ks as [|k' ks IH]; intros h Hk; simpl; [reflexivity|].
  rewrite IH by (intros Hin; apply Hk; simpl; auto).
  apply obj_get_del_neq. intros ->. apply Hk; simpl; auto.
Qed.

Lemma fold_del_in (ks : list string) (h : headers) k :
  In k ks -> obj_get k (fold_left (fun hs k' => obj_del k' hs) ks h) = None.
Proof.
  revert h; induction ks as [|k' ks IH]; intros h Hk; simpl; [destruct Hk|].
  destruct (in_dec string_dec k ks) as [Hin|Hin]; [now apply IH|].
  destruct Hk as [->|Hk]; [|contradiction].
  rewrite fold_del_notin by exact Hin. apply obj_get_del_eq.
Qed.

Lemma fold_set_notin (ks : list string) (h : headers) k : ~ In k ks -> obj_get k (fold_left set_step ks h) = obj_get k h.
Proof.
  revert h; induction ks as [|k' ks IH]; intros h Hk; simpl; [reflexivity|].
  rewrite IH by (intros Hin; apply Hk; simpl; auto).
  unfold set_step. destruct (obj_get k' sh); [|reflexivity].
  apply obj_get_set_neq. intros ->. apply Hk; simpl; auto.
Qed.

Lemma fold_set_in (ks : list string) (h : headers) k v :
  obj_get k sh = Some v -> In k ks -> obj_get k (fold_left set_step ks h) = Some v.
Proof.
  intros Hv. revert h; induction ks as [|k' ks IH]; intros h Hk; simpl; [destruct Hk|].
  destruct (in_dec string_dec k ks) as [Hin|Hin]; [now apply IH|].
  destruct Hk as [->|Hk]; [|contradiction].
  rewrite fold_set_notin by exact Hin. unfold set_step. rewrite Hv. apply obj_get_set_eq.
Qed.

End HeaderLoops.

(** The handler hands a request to the proxy only when it passed every
    check: not a preflight, a target URL [parseURL] accepts (the one the
    proxy will request), not the [iscorsneeded] probe, a port up to 65535,
    an explicit http(s) URL or a valid host name, a required header present,
    an origin (the empty string when absent) not blacklisted and, for a
    non-empty whitelist, whitelisted, and no rate-limit message.  The
    redirect count starts unset, the cap is [maxRedirects], and no header
    is staged on the response yet. *)
Theorem proxied_requests_pass_checks {idna : IDNA} {hp : HttpProxy} V F cfg req0 st req res :
  handler V F cfg req0 = ToProxy st req res ->
  let origin := match obj_get "origin" (req_headers req0) with Some o => o | None => EmptyString end in
  method req0 <> "OPTIONS" /\
  parseURL (drop 1 (url req0)) = Some (rs_location st) /\
  host (rs_location st) <> "iscorsneeded" /\
  port_too_large (port (rs_location st)) = false /\
  (explicit_http_url (url req0) = true \/ V (hostname (rs_location st)) = true) /\
  has_required_headers (normalize_require_header (require_header cfg)) (req_headers req0) = true /\
  ~ In origin (origin_blacklist cfg) /\
  (origin_whitelist cfg = [] \/ In origin (origin_whitelist cfg)) /\
  match check_rate_limit cfg with Some f => f origin = EmptyString | None => True end /\
  rs_redirect_count st = None /\ rs_max_redirects st = max_redirects cfg /\ res = [].
Proof.
  intros H origin.
  destruct (handler_to_proxy_shape V F cfg req0 st req res H)
    as (loc & Hm & Hl & Hh & Hp & Hv & Hr & Hb & Hw & Hrate & -> & _ & ->).
  cbn [rs_location rs_redirect_count rs_max_redirects].
  split; [now apply String.eqb_neq|]. split; [exact Hl|].
  split; [now apply String.eqb_neq|]. split; [exact Hp|].
  split.
  { destruct (explicit_http_url (url req0)); [now left|right].
    destruct (V (hostname loc)); [reflexivity|discriminate Hv]. }
  split; [now apply negb_false_iff|].
  split.
  { intros Hin. fold origin in Hb. rewrite (proj2 (existsb_exists _ _)) in Hb; [discriminate Hb|].
    exists origin. split; [exact Hin|apply String.eqb_refl]. }
  split.
  { fold origin in Hw. destruct (origin_whitelist cfg) as [|w ws]; [now left|right].
    apply andb_false_iff in Hw as [Hw|Hw]; [discriminate Hw|].
    apply negb_false_iff, existsb_exists in Hw as (x & Hx & Ex).
    apply String.eqb_eq in Ex. subst x. exact Hx. }
  split.
  { fold origin in Hrate. destruct (check_rate_limit cfg) as [f|]; [|exact I].
    apply negb_false_iff, String.eqb_eq in Hrate. exact Hrate. }
  repeat split; reflexivity.
Qed.

Lemma proxied_requests_pass_checks_witness :
  match handler (fun _ => true) (fun _ => None) (origin_config [] ["https://o.example"])
          (mk_request "GET" "/http://a.example/x" [("Origin", "https://o.example")] false) with
  | ToProxy st req res =>
      let origin := match obj_get "origin" (req_headers (mk_request "GET" "/http://a.example/x"
                                                  [("Origin", "https://o.example")] false)) with
                    | Some o => o | None => EmptyString end in
      In origin (origin_whitelist (origin_config [] ["https://o.example"])) /\
      parseURL "http://a.example/x" = Some (rs_location st)
  | Respond _ => False
  | NoReply => False
  end.
Proof.
  destruct (handler _ _ _ _) as [r|st req res|] eqn:E; [vm_compute in E; discriminate E| |vm_compute in E; discriminate E].
  destruct (proxied_requests_pass_checks _ _ _ _ _ _ _ E)
    as (_ & Hl & _ & _ & _ & _ & _ & Hw & _).
  split; [|exact Hl].
  destruct Hw as [Hw|Hw]; [vm_compute in Hw; discriminate Hw|exact Hw].
Defined.

(** The request handed to the proxy keeps the client's method; every
    [setHeaders] entry is set to its configured value; a [removeHeaders]
    name not also in [setHeaders] is absent; every other lower-case header
    name (Node's form of incoming names) keeps the client's value. *)
Theorem proxied_request_headers {idna : IDNA} {hp : HttpProxy} V F cfg req0 st req res :
  handler V F cfg req0 = ToProxy st req res ->
  method req = method req0 /\
  (forall k v, obj_get k (set_headers cfg) = Some v -> obj_get k (req_headers req) = Some v) /\
  (forall k, In k (remove_headers cfg) -> ~ In k (obj_keys (set_headers cfg)) ->
     obj_get k (req_headers req) = None) /\
  (forall k, ~ In k (remove_headers cfg) -> ~ In k (obj_keys (set_headers cfg)) -> lower k = k ->
     obj_get k (req_headers req) = obj_get k (req_headers req0)).
Proof.
  intros H.
  destruct (handler_to_proxy_shape V F cfg req0 st req res H) as (loc & _ & _ & _ & _ & _ & _ & _ & _ & _ & _ & -> & _).
  pose proof (with_cors_req (cors_max_age cfg) [] req0) as (Hm & _ & _).
  cbn [method req_headers with_req_headers]. split; [exact Hm|]. split; [|split].
  - intros k v Hv. apply (fold_set_in (set_headers cfg)); [exact Hv|].
    eapply obj_get_some_in_keys; eauto.
  - intros k Hr Hs. rewrite (fold_set_notin (set_headers cfg)) by exact Hs.
    now apply fold_del_in.
  - intros k Hr Hs Hl. rewrite (fold_set_notin (set_headers cfg)) by exact Hs.
    rewrite fold_del_notin by exact Hr. now apply with_cors_req_lower.
Qed.

Lemma proxied_request_headers_witness :
  match handler (fun _ => true) (fun _ => None)
          {| handle_initial_request := None; get_proxy_for_url := fun _ => EmptyString;
             max_redirects := 5; origin_blacklist := []; origin_whitelist := [];
             check_rate_limit := None; redirect_same_origin := false; require_header := RHNull;
             remove_headers := ["cookie"]; set_headers := [("x-api-key", "k1")]; cors_max_age := 0;
             help_file := "help.txt" |}
          (mk_request "POST" "/http://a.example/x" [("Cookie", "s=1"); ("Accept", "*/*")] false) with
  | ToProxy st req res =>
      method req = "POST" /\ obj_get "x-api-key" (req_headers req) = Some "k1" /\
      obj_get "cookie" (req_headers req) = None /\ obj_get "accept" (req_headers req) = Some "*/*"
  | Respond _ => False
  | NoReply => False
  end.
Proof.
  destruct (handler _ _ _ _) as [r|st req res|] eqn:E; [vm_compute in E; discriminate E| |vm_compute in E; discriminate E].
  destruct (proxied_request_headers _ _ _ _ _ _ _ E) as (Hm & Hs & Hr & Ho).
  split; [rewrite Hm; reflexivity|]. split; [apply Hs; reflexivity|]. split.
  - apply Hr; [left; reflexivity|intros [Ek|[]]; discriminate Ek].
  - rewrite Ho; [reflexivity|intros [Ek|[]]; discriminate Ek|intros [Ek|[]]; discriminate Ek|reflexivity].
Defined.

(** ** The redirect follower, request by request *)

Lemma opr_follow_info {idna : IDNA} {hp : HttpProxy} R st req res code prh st' req' res' :
  on_proxy_response R st req res code prh = Follow st' req' res' ->
  is_followed_status code = true /\
  rs_redirect_count st' = Some (incr_count (rs_redirect_count st)) /\
  (incr_count (rs_redirect_count st) <= rs_max_redirects st)%Z /\
  rs_max_redirects st' = rs_max_redirects st /\
  method req' = "GET" /\
  req_headers req' = obj_del "content-type" (obj_set "content-length" "0" (req_headers req)).
Proof.
  intros H. unfold on_proxy_response in H. cbv zeta in H.
  repeat match type of H with
  | context [if ?b then _ else _] => let E := fresh "B" in destruct b eqn:E
  | context [match ?x with Some _ => _ | None => _ end] => destruct x
  | context [match ?x with pair _ _ => _ end] => let E := fresh "E" in destruct x eqn:E
  end; try discriminate;
  injection H as <- <- _; simpl in *; repeat split; auto; now apply Z.leb_le.
Qed.

Lemma incr_count_nonzero c : incr_count c <> 0%Z.
Proof. unfold incr_count. destruct c as [n|]; [destruct (Z.eqb_spec (n + 1) 0)|]; lia. Qed.

Lemma obj_get_none_not_in {A} k (o : obj A) : obj_get k o = None -> ~ In k (obj_keys o).
Proof.
  induction o as [|[k1 v1] o IH]; simpl; [auto|].
  destruct (String.eqb_spec k1 k); [discriminate|]. intros H [E|Hin]; [contradiction|].
  exact (IH H Hin).
Qed.

Lemma exchange_head {idna : IDNA} {hp : HttpProxy} R up fuel i st req res r obs :
  exchange R up fuel i st req res = Some (r, obs) ->
  exists rest, obs = proxy_request st req :: rest.
Proof.
  destruct fuel as [|fuel]; simpl; [discriminate|].
  destruct (up i) as [code raw b|e]; [|intros H; injection H as _ <-; eexists; reflexivity].
  destruct (on_proxy_response R st req res code (node_headers raw));
    [|destruct (engine_relay _ _ _ _); [|discriminate];
      intros H; injection H as _ <-; eexists; reflexivity|discriminate].
  destruct (exchange R up fuel (S i) _ _ _) as [[r' obs']|]; [|discriminate].
  intros H; injection H as _ <-. eexists; reflexivity.
Qed.

Lemma incr_count_pos n : (0 < n)%Z -> incr_count (Some n) = (n + 1)%Z.
Proof. intros Hn. unfold incr_count. destruct (Z.eqb_spec (n + 1) 0); lia. Qed.

(** Each request of the chain after the first raises [redirectCount_] by
    one and is only issued while the count stays within [maxRedirects]. *)
Lemma exchange_count_bound {idna : IDNA} {hp : HttpProxy} R up fuel i st req res r obs :
  (forall c, rs_redirect_count st = Some c -> (0 < c <= rs_max_redirects st)%Z) ->
  exchange R up fuel i st req res = Some (r, obs) ->
  (Z.of_nat (List.length obs) +
     match rs_redirect_count st with Some c => c | None => 0 end <=
   Z.max (rs_max_redirects st) 0 + 1)%Z.
Proof.
  revert i st req res r obs.
  induction fuel as [|fuel IH]; intros i st req res r obs Hc H; simpl in H; [discriminate|].
  destruct (up i) as [code raw b|e].
  2:{ injection H as _ <-. cbn [List.length].
      destruct (rs_redirect_count st) as [c|]; [specialize (Hc c eq_refl)|]; lia. }
  destruct (on_proxy_response R st req res code (node_headers raw)) as [st' req' res'|prh req' res'|] eqn:O;
    [| |discriminate H].
  - destruct (exchange R up fuel (S i) st' req' res') as [[r' obs']|] eqn:X; [|discriminate H].
    injection H as _ <-.
    destruct (opr_follow_info R st req res code _ st' req' res' O) as (_ & Hcnt & Hle & Hmx & _).
    assert (Hpos : (0 < incr_count (rs_redirect_count st))%Z).
    { destruct (rs_redirect_count st) as [c|] eqn:Ec; [|reflexivity].
      specialize (Hc c eq_refl). rewrite incr_count_pos by lia. lia. }
    assert (Hc' : forall c, rs_redirect_count st' = Some c -> (0 < c <= rs_max_redirects st')%Z).
    { intros c E. rewrite Hcnt in E. injection E as <-. rewrite Hmx. lia. }
    pose proof (IH (S i) st' req' res' r' obs' Hc' X) as Hb.
    rewrite Hcnt, Hmx in Hb. cbn [List.length]. rewrite Nat2Z.inj_succ.
    destruct (rs_redirect_count st) as [c|] eqn:Ec.
    + specialize (Hc c eq_refl). rewrite incr_count_pos in Hb by lia. lia.
    + cbn in Hb. lia.
  - destruct (engine_relay code prh b res') as [r0|]; [|discriminate H].
    injection H as _ <-. cbn [List.length].
    destruct (rs_redirect_count st) as [c|]; [specialize (Hc c eq_refl)|]; lia.
Qed.

(** Starting from a fresh request state, the redirect follower issues at
    most [maxRedirects] + 1 upstream requests, however much fuel it is
    given: the chain stops following once [redirectCount_] would exceed
    [maxRedirects]. *)
Theorem upstream_requests_capped {idna : IDNA} {hp : HttpProxy} R up fuel i st req res r obs :
  rs_redirect_count st = None ->
  exchange R up fuel i st req res = Some (r, obs) ->
  (List.length obs <= S (Z.to_nat (rs_max_redirects st)))%nat.
Proof.
  intros Hn H.
  assert (Hc : forall c, rs_redirect_count st = Some c -> (0 < c <= rs_max_redirects st)%Z)
    by (rewrite Hn; discriminate).
  pose proof (exchange_count_bound R up fuel i st req res r obs Hc H) as Hb.
  rewrite Hn in Hb. lia.
Qed.

Lemma upstream_requests_capped_witness :
  match exchange (fun _ l => Some l) (chain_upstream 3) 20 0 (sample_state 1)
          (mk_request "GET" "/http://a.example/" [] false) [] with
  | Some (r, obs) => (List.length obs <= 2)%nat
  | None => False
  end.
Proof.
  destruct (exchange _ _ _ _ _ _ _) as [[r obs]|] eqn:E; [|vm_compute in E; discriminate E].
  exact (upstream_requests_capped _ _ _ _ (sample_state 1) _ _ _ _ eq_refl E).
Defined.

Lemma relay_final_url st req p s :
  all_lower p ->
  get_header "x-final-url" (write_headers (fst (relay_headers st req p)) s) = Some (href (rs_location st)).
Proof.
  intros Hp. rewrite write_headers_fold.
  assert (Hnc : ~ In "x-final-url" cors_header_names).
  { intros Hin; simpl in Hin. repeat destruct Hin as [Hin|Hin]; try discriminate Hin; destruct Hin. }
  apply (write_only_key _ "x-final-url" "x-final-url" (href (rs_location st))); [reflexivity| | |].
  - unfold relay_headers. rewrite with_cors_get_other by exact Hnc. apply obj_get_set_eq.
  - unfold relay_headers. apply with_cors_keys_keep, keys_set_self.
  - intros k Hk Hl. unfold relay_headers in Hk.
    apply with_cors_keys_in in Hk as [Hk|Hk].
    + apply (relay_pre_all_lower st) in Hk; [|exact Hp]. rewrite <- Hk. exact Hl.
    + simpl in Hk. repeat destruct Hk as [<-|Hk]; try (vm_compute in Hl; discriminate Hl).
      destruct Hk.
Qed.

Lemma relay_request_url_untouched st req p s :
  all_lower p -> obj_get "x-request-url" p = None ->
  get_header "x-request-url" (write_headers (fst (relay_headers st req p)) s) =
  get_header "x-request-url" s.
Proof.
  intros Hp Hn. rewrite write_headers_fold. apply write_untouched.
  intros k Hk. unfold relay_headers in Hk.
  apply with_cors_keys_in in Hk as [Hk|Hk].
  - apply keys_set_in in Hk as [->|Hk]; [lower_neq|].
    apply keys_del_in in Hk as [_ Hk]. apply keys_del_in in Hk as [_ Hk].
    rewrite (Hp k Hk). intros E. simpl in E. subst k.
    exact (obj_get_none_not_in _ _ Hn Hk).
  - simpl in Hk. repeat destruct Hk as [<-|Hk]; try lower_neq. destruct Hk.
Qed.

Lemma final_url_gen {idna : IDNA} {hp : HttpProxy} R up fuel i st req res r obs :
  (forall j, exists code raw b, up j = Answer code raw b /\ valid_status code = true) ->
  exchange R up fuel i st req res = Some (r, obs) ->
  exists pre st' req', obs = (pre ++ [proxy_request st' req'])%list /\
    get_header "x-final-url" (res_headers r) = Some (href (rs_location st')).
Proof.
  intros Hup. revert i st req res r obs.
  induction fuel as [|fuel IH]; intros i st req res r obs H; simpl in H; [discriminate|].
  destruct (Hup i) as (code & raw & b & Hi & Hv). rewrite Hi in H.
  destruct (on_proxy_response R st req res code (node_headers raw)) as [st' req' res'|prh req' res'|] eqn:O; [| |discriminate H].
  - destruct (exchange R up fuel (S i) st' req' res') as [[r' obs']|] eqn:X; [|discriminate H].
    injection H as <- <-.
    destruct (IH (S i) st' req' res' r' obs' X) as (pre & st2 & req2 & -> & Hx).
    exists (proxy_request st req :: pre), st2, req2. split; [reflexivity|exact Hx].
  - unfold engine_relay in H. rewrite Hv in H.
    injection H as <- <-. exists [], st, req. split; [reflexivity|].
    apply opr_relay_shape in O as (st'' & p & Hrel & Hloc & _ & Hp & _).
    cbn [res_headers].
    replace prh with (fst (relay_headers st'' req p)) by (rewrite Hrel; reflexivity).
    rewrite <- Hloc. apply relay_final_url.
    destruct Hp as [->|[v ->]]; [|apply all_lower_location]; apply node_headers_all_lower.
Qed.

(** When every upstream answer has a status Node accepts, the response the
    client gets carries [x-final-url], the URL of the last upstream request
    (the one whose answer is relayed), whatever the upstream sent under
    that name. *)
Theorem final_url_header {idna : IDNA} {hp : HttpProxy} R up fuel i st req res r obs :
  (forall j, exists code raw b, up j = Answer code raw b /\ valid_status code = true) ->
  exchange R up fuel i st req res = Some (r, obs) ->
  exists pre st' req', obs = (pre ++ [proxy_request st' req'])%list /\
    get_header "x-final-url" (res_headers r) = Some (href (rs_location st')).
Proof. apply final_url_gen. Qed.

Lemma request_url_gen {idna : IDNA} {hp : HttpProxy} R up fuel i st req res r obs u :
  (forall j, exists code raw b, up j = Answer code raw b /\ valid_status code = true /\
                                obj_get "x-request-url" (node_headers raw) = None) ->
  get_header "x-request-url" (if count_unset (rs_redirect_count st)
                              then set_header "x-request-url" (href (rs_location st)) res else res) = Some u ->
  exchange R up fuel i st req res = Some (r, obs) ->
  get_header "x-request-url" (res_headers r) = Some u.
Proof.
  intros Hup. revert i st req res r obs.
  induction fuel as [|fuel IH]; intros i st req res r obs Hu H; simpl in H; [discriminate|].
  destruct (Hup i) as (code & raw & b & Hi & Hv & Hn). rewrite Hi in H.
  destruct (on_proxy_response R st req res code (node_headers raw)) as [st' req' res'|prh req' res'|] eqn:O; [| |discriminate H].
  - destruct (exchange R up fuel (S i) st' req' res') as [[r' obs']|] eqn:X; [|discriminate H].
    injection H as <- <-. apply (IH (S i) st' req' res' r' obs'); [|exact X].
    pose proof (opr_follow_res R st req res code (node_headers raw) st' req' res' O) as (c & v & ->).
    apply opr_follow_info in O as (_ & Hc & _).
    rewrite Hc. unfold count_unset. rewrite (proj2 (Z.eqb_neq _ _) (incr_count_nonzero _)).
    rewrite get_header_set_other; [exact Hu|]. rewrite lower_app. simpl. discriminate.
  - unfold engine_relay in H. rewrite Hv in H.
    injection H as <- <-.
    apply opr_relay_shape in O as (st'' & p & Hrel & _ & _ & Hp & ->).
    cbn [res_headers].
    replace prh with (fst (relay_headers st'' req p)) by (rewrite Hrel; reflexivity).
    rewrite relay_request_url_untouched; [exact Hu| |].
    + destruct Hp as [->|[v ->]]; [|apply all_lower_location]; apply node_headers_all_lower.
    + destruct Hp as [->|[v ->]]; [exact Hn|]. rewrite obj_get_set_neq by discriminate. exact Hn.
Qed.

(** When the redirect counter is unset (or 0) on entry and no upstream
    answer has an invalid status or its own [x-request-url] header, the
    response the client gets carries [x-request-url], the URL of the first
    upstream request, also after followed redirects. *)
Theorem request_url_header {idna : IDNA} {hp : HttpProxy} R up fuel i st req res r obs :
  (forall j, exists code raw b, up j = Answer code raw b /\ valid_status code = true /\
                                obj_get "x-request-url" (node_headers raw) = None) ->
  count_unset (rs_redirect_count st) = true ->
  exchange R up fuel i st req res = Some (r, obs) ->
  get_header "x-request-url" (res_headers r) = Some (href (rs_location st)).
Proof.
  intros Hup Hc. apply request_url_gen; [exact Hup|].
  rewrite Hc. apply get_header_set_same. reflexivity.
Qed.

Lemma final_url_header_witness :
  match exchange (fun _ l => Some l) (chain_upstream 2) 3 0 (sample_state 5)
          (mk_request "GET" "/http://a.example/" [] false) [] with
  | Some (r, obs) => exists pre st' req', obs = (pre ++ [proxy_request st' req'])%list /\
      get_header "x-final-url" (res_headers r) = Some (href (rs_location st'))
  | None => False
  end.
Proof.
  destruct (exchange _ _ _ _ _ _ _) as [[r obs]|] eqn:E; [|vm_compute in E; discriminate E].
  eapply final_url_header; [|exact E].
  intros j. unfold chain_upstream. destruct (j <? 2)%nat; do 3 eexists; split; reflexivity.
Defined.

Lemma request_url_header_witness :
  match exchange (fun _ l => Some l) (chain_upstream 2) 3 0 (sample_state 5)
          (mk_request "GET" "/http://a.example/" [] false) [] with
  | Some (r, obs) => get_header "x-request-url" (res_headers r) = Some (href (rs_location (sample_state 5)))
  | None => False
  end.
Proof.
  destruct (exchange _ _ _ _ _ _ _) as [[r obs]|] eqn:E; [|vm_compute in E; discriminate E].
  refine (request_url_header _ _ _ _ _ _ _ _ _ _ (eq_refl : count_unset (rs_redirect_count (sample_state 5)) = true) E).
  intros j. unfold chain_upstream.
  destruct (j <? 2)%nat; do 3 eexists; (split; [reflexivity|split; vm_compute; reflexivity]).
Defined.

(** ** Replies of the handler besides the origin checks *)

(** A target URL for which [parseURL] returns null (the hook aside) is
    answered 400 Missing slash when the URL matches
    [/^\/https?:\/[^/]/i].  Otherwise [showUsage] runs: a help file that
    reads as empty is cached as the falsy empty string and re-read forever,
    so no reply is written; else the reply is typed text/html for a help
    file ending in .html and text/plain otherwise, and is 200 with the
    file's contents when it can be read, 500 with an empty body when it
    cannot. *)
Theorem unparsable_url_reply {idna : IDNA} {hp : HttpProxy} V F cfg req0 :
  method req0 <> "OPTIONS" -> handle_initial_request cfg = None ->
  parseURL_result (drop 1 (url req0)) = Some None ->
  (missing_slash (url req0) = true ->
     exists r, handler V F cfg req0 = Respond r /\
       status r = 400 /\ status_message r = Some "Missing slash") /\
  (missing_slash (url req0) = false -> F (help_file cfg) = Some EmptyString ->
     handler V F cfg req0 = NoReply) /\
  (missing_slash (url req0) = false -> F (help_file cfg) <> Some EmptyString ->
     exists r, handler V F cfg req0 = Respond r /\
       get_header "content-type" (res_headers r) =
         Some (if ends_with ".html" (help_file cfg) then "text/html" else "text/plain") /\
       match F (help_file cfg) with
       | Some data => status r = 200 /\ body r = data
       | None => status r = 500 /\ body r = EmptyString
       end).
Proof.
  intros Hopt Hhook Hloc. unfold handler. rewrite Hhook.
  pose proof (with_cors_req (cors_max_age cfg) [] req0) as (Hm & Hu & _).
  pose proof (with_cors_keys_in (cors_max_age cfg) [] req0 "content-type") as Hk.
  destruct (with_cors (cors_max_age cfg) [] req0) as [ch req] eqn:W.
  cbn [fst snd] in Hm, Hu, Hk |- *. cbv zeta.
  rewrite Hm, Hu, Hloc, (proj2 (String.eqb_neq _ _) Hopt). cbn iota.
  assert (Hct : forall s, get_header "content-type"
                  (write_headers (obj_set "content-type" s ch) []) = Some s).
  { intros s. apply write_last_with, last_with_set_fresh. intros Hin.
    destruct (Hk Hin) as [[]|Hc]. simpl in Hc.
    repeat destruct Hc as [Hc|Hc]; try discriminate Hc; destruct Hc. }
  split; [|split].
  - intros ->. eexists. split; [reflexivity|]. split; reflexivity.
  - intros -> Hf. unfold show_usage. rewrite Hf. reflexivity.
  - intros -> Hf. unfold show_usage.
    destruct (F (help_file cfg)) as [data|].
    + destruct (String.eqb_spec data EmptyString) as [->|_]; [contradiction|].
      eexists. split; [reflexivity|]. cbn [status body res_headers].
      split; [apply Hct|split; reflexivity].
    + eexists. split; [reflexivity|]. cbn [status body res_headers].
      split; [apply Hct|split; reflexivity].
Qed.

(** Without a [handleInitialRequest] hook and with [redirectSameOrigin]
    off, the handler never answers with a 301 itself. *)
Theorem no_301_without_redirect_same_origin {idna : IDNA} {hp : HttpProxy} V F cfg req0 r :
  handle_initial_request cfg = None -> redirect_same_origin cfg = false ->
  handler V F cfg req0 = Respond r -> status r <> 301.
Proof.
  intros Hhook Hso H. unfold handler in H. rewrite Hhook, Hso in H. cbn [andb] in H.
  destruct (with_cors (cors_max_age cfg) [] req0) as [ch req].
  repeat match type of H with
  | context [if ?b then _ else _] => destruct b
  | context [match show_usage ?f ?h ?c with Some _ => _ | None => _ end] =>
      let E := fresh "E" in destruct (show_usage f h c) eqn:E
  | context [match ?x with Some _ => _ | None => _ end] => destruct x
  end; try discriminate H; injection H as <-;
  try match goal with
  | E : show_usage _ _ _ = Some _ |- _ => unfold show_usage in E; split_lets_in E; injection E as <-
  end; simpl; discriminate.
Qed.

Lemma existsb_eqb_false o l : ~ In o l -> existsb (String.eqb o) l = false.
Proof.
  intros H. destruct (existsb (String.eqb o) l) eqn:E; [|reflexivity].
  apply existsb_exists in E as (x & Hx & Ex). apply String.eqb_eq in Ex. subst x. contradiction.
Qed.

Section LateChecks.

Context {idna : IDNA} {hp : HttpProxy}.

Variables (V : string -> bool) (F : string -> option string) (cfg : Config) (req0 : Request)
  (loc : Url) (o : string).

(** The request gets past every check up to the origin lists. *)
Hypothesis Hhook : handle_initial_request cfg = None.
Hypothesis Hopt : method req0 <> "OPTIONS".
Hypothesis Hloc : parseURL (drop 1 (url req0)) = Some loc.
Hypothesis Hhost : host loc <> "iscorsneeded".
Hypothesis Hport : port_too_large (port loc) = false.
Hypothesis Hvalid : explicit_http_url (url req0) = true \/ V (hostname loc) = true.
Hypothesis Hreq :
  has_required_headers (normalize_require_header (require_header cfg)) (req_headers req0) = true.
Hypothesis Ho : match obj_get "origin" (req_headers req0) with Some o => o | None => EmptyString end = o.
Hypothesis Hbl : ~ In o (origin_blacklist cfg).
Hypothesis Hwl : origin_whitelist cfg = [] \/ In o (origin_whitelist cfg).

Lemma late_stage :
  let rate := match check_rate_limit cfg with Some f => f o | None => EmptyString end in
  (negb (String.eqb rate EmptyString) = true ->
   handler V F cfg req0 =
   Respond (reply 429 "Too Many Requests" (fst (with_cors (cors_max_age cfg) [] req0))
              ("The origin " ++ dq ++ o ++ dq ++ " has sent too many requests." ++
               String "010" EmptyString ++ rate))) /\
  (negb (String.eqb rate EmptyString) = false ->
   (redirect_same_origin cfg && negb (String.eqb o EmptyString) &&
    origin_prefixed o (href loc))%bool = true ->
   handler V F cfg req0 =
   Respond (reply 301 "Please use a direct request"
              (obj_set "location" (href loc)
                 (obj_set "cache-control" "private"
                    (obj_set "consty" "origin" (fst (with_cors (cors_max_age cfg) [] req0)))))
              EmptyString)).
Proof.
  cbv zeta. unfold handler. rewrite Hhook.
  pose proof (with_cors_req (cors_max_age cfg) [] req0) as (Hm & Hu & Hg).
  pose proof (has_required_headers_cors (require_header cfg) (cors_max_age cfg) [] req0) as Hr.
  destruct (with_cors (cors_max_age cfg) [] req0) as [ch req] eqn:W. cbn [fst snd] in Hm, Hu, Hg, Hr |- *.
  cbv zeta.
  rewrite Hm, Hu, (parseURL_result_some _ _ Hloc), Hr, Hreq, (Hg "origin"), Ho by discriminate.
  rewrite (proj2 (String.eqb_neq _ _) Hopt), (proj2 (String.eqb_neq _ _) Hhost), Hport.
  replace (negb (explicit_http_url (url req0)) && negb (V (hostname loc)))%bool with false
    by (destruct Hvalid as [-> | ->]; [reflexivity|symmetry; apply andb_false_r]).
  rewrite (existsb_eqb_false _ _ Hbl).
  replace (match origin_whitelist cfg with [] => false | _ :: _ => true end &&
           negb (existsb (String.eqb o) (origin_whitelist cfg)))%bool with false
    by (destruct Hwl as [-> | Hin]; [reflexivity|];
        rewrite (proj2 (existsb_exists _ _) (ex_intro _ o (conj Hin (String.eqb_refl o))));
        symmetry; apply andb_false_r).
  simpl negb. cbv iota.
  split; intros H1; rewrite H1; [reflexivity|intros H2; rewrite H2; reflexivity].
Qed.

(** For a request that gets past every check up to the origin lists, a
    non-empty message from [checkRateLimit] for its origin is answered 429
    Too Many Requests, the body ending in that message. *)
Theorem rate_limited_reply f :
  check_rate_limit cfg = Some f -> f o <> EmptyString ->
  exists r, handler V F cfg req0 = Respond r /\ status r = 429 /\
    status_message r = Some "Too Many Requests" /\
    body r = ("The origin " ++ dq ++ o ++ dq ++ " has sent too many requests." ++
              String "010" EmptyString ++ f o)%string.
Proof.
  intros Hf Hne. destruct late_stage as (H & _). rewrite Hf in H.
  rewrite H by (rewrite (proj2 (String.eqb_neq _ _) Hne); reflexivity).
  eexists. split; [reflexivity|]. repeat split.
Qed.

(** For such a request with no rate-limit message, [redirectSameOrigin] on,
    a non-empty origin and a target URL that starts with the origin
    followed by a slash, the client is sent a 301 to the target URL itself,
    marked [cache-control: private], instead of being proxied. *)
Theorem same_origin_redirect :
  match check_rate_limit cfg with Some f => f o = EmptyString | None => True end ->
  redirect_same_origin cfg = true -> o <> EmptyString -> origin_prefixed o (href loc) = true ->
  exists r, handler V F cfg req0 = Respond r /\ status r = 301 /\ body r = EmptyString /\
    get_header "location" (res_headers r) = Some (href loc) /\
    get_header "cache-control" (res_headers r) = Some "private".
Proof.
  intros Hrate Hso Hne Hp. destruct late_stage as (_ & H). rewrite H; cycle 1.
  { destruct (check_rate_limit cfg); [rewrite Hrate|]; reflexivity. }
  { rewrite Hso, (proj2 (String.eqb_neq _ _) Hne), Hp. reflexivity. }
  assert (Hk : forall k, In k (obj_keys (fst (with_cors (cors_max_age cfg) [] req0))) ->
                 In k cors_header_names) by (intros k Hin; now destruct (with_cors_keys_in _ _ _ _ Hin)).
  eexists. split; [reflexivity|]. cbn [status body res_headers reply].
  split; [reflexivity|]. split; [reflexivity|]. split.
  - apply write_last_with, last_with_set_fresh. intros Hin.
    apply keys_set_in in Hin as [E|Hin]; [discriminate E|].
    apply keys_set_in in Hin as [E|Hin]; [discriminate E|].
    apply Hk in Hin. simpl in Hin. repeat destruct Hin as [Hin|Hin]; try discriminate Hin; destruct Hin.
  - apply write_last_with, last_with_set; [lower_neq|]. apply last_with_set_fresh. intros Hin.
    apply keys_set_in in Hin as [E|Hin]; [discriminate E|].
    apply Hk in Hin. simpl in Hin. repeat destruct Hin as [Hin|Hin]; try discriminate Hin; destruct Hin.
Qed.

End LateChecks.

Ltac close_hyp :=
  first [ solve [reflexivity] | solve [left; reflexivity] | solve [intros []]
        | solve [let H := fresh in intros H; vm_compute in H; discriminate H]
        | solve [vm_compute; reflexivity] ].

Lemma unparsable_url_reply_witness :
  (missing_slash "/" = true ->
     exists r, handler (fun _ => true) (fun _ => Some "usage text") default_config
                 (mk_request "GET" "/" [] false) = Respond r /\
       status r = 400 /\ status_message r = Some "Missing slash") /\
  (missing_slash "/" = false -> Some "usage text" = Some EmptyString ->
     handler (fun _ => true) (fun _ => Some "usage text") default_config
       (mk_request "GET" "/" [] false) = NoReply) /\
  (missing_slash "/" = false -> Some "usage text" <> Some EmptyString ->
     exists r, handler (fun _ => true) (fun _ => Some "usage text") default_config
                 (mk_request "GET" "/" [] false) = Respond r /\
       get_header "content-type" (res_headers r) = Some "text/plain" /\
       status r = 200 /\ body r = "usage text").
Proof.
  exact (unparsable_url_reply (fun _ => true) (fun _ => Some "usage text") default_config
           (mk_request "GET" "/" [] false) ltac:(discriminate) eq_refl ltac:(vm_compute; reflexivity)).
Defined.

Lemma no_301_without_redirect_same_origin_witness :
  match handler (fun _ => false) (fun _ => None) default_config
          (mk_request "GET" "/favicon.ico" [("Origin", "http://a.example")] false) with
  | Respond r => status r <> 301
  | ToProxy _ _ _ => False
  | NoReply => False
  end.
Proof.
  destruct (handler _ _ _ _) as [r|st req res|] eqn:E; [|vm_compute in E; discriminate E..].
  exact (no_301_without_redirect_same_origin _ _ default_config _ _ eq_refl eq_refl E).
Defined.

Lemma rate_limited_reply_witness :
  exists r, handler (fun _ => true) (fun _ => None) (late_config false (Some (fun _ => "slow down")))
              (mk_request "GET" "/http://a.example/" [("Origin", "http://o.example")] false) = Respond r /\
    status r = 429 /\ status_message r = Some "Too Many Requests" /\
    body r = ("The origin " ++ dq ++ "http://o.example" ++ dq ++ " has sent too many requests." ++
              String "010" EmptyString ++ "slow down")%string.
Proof.
  refine (rate_limited_reply (fun _ => true) (fun _ => None) (late_config false (Some (fun _ => "slow down")))
            (mk_request "GET" "/http://a.example/" [("Origin", "http://o.example")] false)
            sample_target "http://o.example" _ _ _ _ _ _ _ _ _ _ (fun _ => "slow down") _ _); close_hyp.
Defined.

Lemma same_origin_redirect_witness :
  exists r, handler (fun _ => true) (fun _ => None) (late_config true None)
              (mk_request "GET" "/http://a.example/x" [("Origin", "http://a.example")] false) = Respond r /\
    status r = 301 /\ body r = EmptyString /\
    get_header "location" (res_headers r) = Some "http://a.example/x" /\
    get_header "cache-control" (res_headers r) = Some "private".
Proof.
  apply (same_origin_redirect (fun _ => true) (fun _ => None) (late_config true None)
           (mk_request "GET" "/http://a.example/x" [("Origin", "http://a.example")] false)
           (sample_url "http://a.example/x") "http://a.example"); close_hyp.
Defined.

(** ** [hasRequiredHeaders] over Node's header map *)

Lemma node_headers_step_present k n v (acc : headers) :
  obj_get k (match obj_get (lower n) acc with
             | Some old =>
                 if drops_duplicates (lower n) then acc
                 else obj_set (lower n)
                        (old ++ (if String.eqb (lower n) "cookie" then "; " else ", ") ++ v) acc
             | None => obj_set (lower n) v acc
             end) <> None <->
  obj_get k acc <> None \/ lower n = k.
Proof.
  destruct (string_dec (lower n) k) as [<-|E].
  - destruct (obj_get (lower n) acc) eqn:G; [destruct (drops_duplicates _)|].
    + rewrite G. split; [intros _; now right|intros _; discriminate].
    + rewrite obj_get_set_eq. split; [intros _; now right|intros _; discriminate].
    + rewrite obj_get_set_eq. split; [intros _; now right|intros _; discriminate].
  - assert (Hs : forall w, obj_get k (obj_set (lower n) w acc) = obj_get k acc)
      by (intros w; now apply obj_get_set_neq).
    destruct (obj_get (lower n) acc); [destruct (drops_duplicates _)|]; rewrite ?Hs;
      (split; [now left|intros [H|H]; [exact H|contradiction]]).
Qed.

Lemma node_headers_acc_present k acc raw :
  obj_get k (node_headers_acc acc raw) <> None <->
  obj_get k acc <> None \/ exists n v, In (n, v) raw /\ lower n = k.
Proof.
  revert acc; induction raw as [|[n v] raw IH]; intros acc; simpl.
  - split; [auto|]. intros [H|(n & v & [] & _)]; exact H.
  - rewrite IH, node_headers_step_present. split.
    + intros [[H|E]|(n' & v' & Hin & El)]; [now left|right; exists n, v; auto|right; exists n', v'; auto].
    + intros [H|(n' & v' & [Eq|Hin] & El)]; [now (left; left)| |right; exists n', v'; auto].
      injection Eq as -> ->. left; right; exact El.
Qed.

Lemma node_headers_present k raw :
  obj_get k (node_headers raw) <> None <-> exists n v, In (n, v) raw /\ lower n = k.
Proof.
  unfold node_headers. rewrite node_headers_acc_present. simpl.
  split; [intros [H|H]; [now contradiction H|exact H]|now right].
Qed.

(** The [requireHeader] check, after the option is normalised, matches
    header names case-insensitively: it passes when the option is null, an
    empty string or an empty array, and otherwise exactly when the request
    carries a header whose name equals one of the configured names up to
    case. *)
Theorem required_header_check rh raw :
  has_required_headers (normalize_require_header rh) (node_headers raw) = true <->
  match rh with
  | RHNull => True
  | RHString s => s = EmptyString \/ exists n v, In (n, v) raw /\ lower n = lower s
  | RHArray l => l = [] \/ exists s n v, In s l /\ In (n, v) raw /\ lower n = lower s
  end.
Proof.
  assert (Hex : forall l, existsb (fun n => match obj_get n (node_headers raw) with
                                           | Some _ => true | None => false end) l = true <->
                          exists s n v, In s l /\ In (n, v) raw /\ lower n = s).
  { intros l. rewrite existsb_exists. split.
    - intros (s & Hs & Hg). destruct (obj_get s (node_headers raw)) eqn:G; [|discriminate Hg].
      assert (Hp : obj_get s (node_headers raw) <> None) by congruence.
      apply node_headers_present in Hp as (n & v & Hin & E). exists s, n, v. auto.
    - intros (s & n & v & Hs & Hin & E). exists s. split; [exact Hs|].
      destruct (obj_get s (node_headers raw)) eqn:G; [reflexivity|].
      exfalso. apply (proj2 (node_headers_present s raw)); [exists n, v; auto|exact G]. }
  destruct rh as [|s|l]; simpl.
  - tauto.
  - destruct (String.eqb_spec s EmptyString) as [->|Hs]; simpl; [tauto|].
    rewrite orb_false_r. split.
    + intros H. right. destruct (obj_get (lower s) (node_headers raw)) eqn:G; [|discriminate H].
      apply node_headers_present. congruence.
    + intros [H|H]; [contradiction|]. apply node_headers_present in H.
      destruct (obj_get (lower s) (node_headers raw)); [reflexivity|contradiction].
  - destruct l as [|s l]; [tauto|]. rewrite (Hex (map lower (s :: l))). split.
    + intros (s' & n & v & Hs & Hin & E). apply in_map_iff in Hs as (x & <- & Hx).
      right. exists x, n, v. auto.
    + intros [H|(x & n & v & Hx & Hin & E)]; [discriminate H|].
      exists (lower x), n, v. split; [now apply in_map|]. auto.
Qed.

(** ** The first upstream request *)

(** When the server issues upstream requests, the first one carries the
    client's method and goes to the host of the URL [parseURL] read from
    the request path: directly to that URL (requesting its path) when
    [getProxyForUrl] gives no proxy, otherwise to the proxy with the
    absolute URL. *)
Theorem first_upstream_request {idna : IDNA} {hp : HttpProxy} R V F cfg up req r obs :
  serve R V F cfg up req = Some (r, obs) -> obs <> [] ->
  exists loc ob rest, obs = ob :: rest /\ parseURL (drop 1 (url req)) = Some loc /\
    ob_method ob = method req /\ ob_host ob = host loc /\
    (get_proxy_for_url cfg (href loc) = EmptyString ->
       ob_to_proxy ob = false /\ ob_target ob = href loc /\
       ob_url ob = match path loc with Some p => p | None => EmptyString end) /\
    (get_proxy_for_url cfg (href loc) <> EmptyString ->
       ob_to_proxy ob = true /\ ob_target ob = get_proxy_for_url cfg (href loc) /\ ob_url ob = href loc).
Proof.
  intros H Hne. unfold serve in H. destruct (handler V F cfg req) as [r0|st req' res|] eqn:Hh;
    [injection H as _ <-; contradiction| |discriminate H].
  - destruct (handler_to_proxy_shape V F cfg req st req' res Hh)
      as (loc & _ & Hl & _ & _ & _ & _ & _ & _ & _ & -> & -> & _).
    apply exchange_head in H as (rest & ->).
    pose proof (with_cors_req (cors_max_age cfg) [] req) as (Hm & _ & _).
    eexists loc, _, rest. split; [reflexivity|]. split; [exact Hl|].
    unfold proxy_request. cbn [rs_location rs_get_proxy_for_url ob_method ob_host ob_to_proxy ob_target ob_url
                                 with_req_headers method].
    split; [exact Hm|]. split; [reflexivity|]. split.
    + intros E. rewrite E. simpl. auto.
    + intros E. rewrite (proj2 (String.eqb_neq _ _) E). simpl. auto.
Qed.

Lemma first_upstream_request_witness :
  match serve (fun _ l => Some l) (fun _ => true) (fun _ => None) default_config (chain_upstream 0)
          (mk_request "PUT" "/a.example:443/up?x=1" [] false) with
  | Some (r, obs) => exists loc ob rest, obs = ob :: rest /\
      parseURL "a.example:443/up?x=1" = Some loc /\ ob_method ob = "PUT" /\ ob_host ob = host loc /\
      ob_target ob = href loc /\ ob_url ob = "/up?x=1"
  | None => False
  end.
Proof.
  destruct (serve _ _ _ _ _ _) as [[r obs]|] eqn:E; [|vm_compute in E; discriminate E].
  destruct (first_upstream_request _ _ _ _ _ _ _ _ E) as (loc & ob & rest & Ho & Hl & Hm & Hh & Hd & _).
  - intros Ho. rewrite Ho in E. vm_compute in E. discriminate E.
  - exists loc, ob, rest. destruct Hd as (_ & Ht & Hu); [vm_compute in Hl |- *; injection Hl as <-; reflexivity|].
    repeat split; auto. rewrite Hu. vm_compute in Hl. injection Hl as <-. reflexivity.
Defined.
